(** * ble-scale-sync firmware: BLE bridge and command orchestrator

    A shallow embedding of [firmware/ble_bridge.py] and [firmware/main.py]
    together with the properties of the bridge that the specification
    states about them.

    Conventions of the embedding:
    - a Python [str] is a [string]; [bytes] is a [list byte];
      Python integers are [Z] (or [N] where they cannot be negative);
    - a Python dict used as a map is a [gmap]; a dict used as a record is
      a [Record] whose optional keys are [option] fields;
    - a call that may raise returns an [outcome]; loops that are not
      structurally recursive carry fuel, and running out of fuel is a
      separate outcome that is proved unreachable. *)

From Stdlib Require Import ZArith NArith String Ascii List Strings.Byte Lia Bool.
From stdpp Require Import gmap strings list.
Import ListNotations.

Open Scope string_scope.

(* ===================================================================== *)
(** * Python built-ins used by the firmware                              *)
(* ===================================================================== *)

Module Py.

(** [s.startswith(p)] *)
Definition startswith (p s : string) : bool := String.prefix p s.

(** Normalisation of a slice bound against a length, as Python does it:
    a negative bound counts from the end, and the result is clamped to
    [0 .. len]. *)
Definition slice_bound (len i : Z) : Z :=
  if (i <? 0)%Z then Z.max (i + len) 0 else Z.min i len.

(** [s[start:stop]] on a [str] *)
Definition str_slice (s : string) (start stop : Z) : string :=
  let len := Z.of_nat (String.length s) in
  let a := slice_bound len start in
  let b := slice_bound len stop in
  String.substring (Z.to_nat a) (Z.to_nat (b - a)) s.

(** [s[start:]] on a [str] *)
Definition str_from (s : string) (start : Z) : string :=
  str_slice s start (Z.of_nat (String.length s)).

(** [s.endswith(suf)] *)
Definition endswith (suf s : string) : bool :=
  (String.length suf <=? String.length s)%nat &&
  String.eqb (str_from s (Z.of_nat (String.length s - String.length suf))) suf.

(** [c.lower()] on one character of the ASCII range *)
Definition lower_char (c : ascii) : ascii :=
  let n := N_of_ascii c in
  if ((65 <=? n) && (n <=? 90))%N then ascii_of_N (n + 32) else c.

(** [s.lower()] *)
Fixpoint lower (s : string) : string :=
  match s with
  | EmptyString => EmptyString
  | String c r => String (lower_char c) (lower r)
  end.

(** [s.replace(old, new)] for a one-character [old] *)
Fixpoint replace1 (old : ascii) (new : string) (s : string) : string :=
  match s with
  | EmptyString => EmptyString
  | String c r =>
      if Ascii.eqb c old then new +:+ replace1 old new r
      else String c (replace1 old new r)
  end.

(** [needle in s] *)
Fixpoint contains (needle s : string) : bool :=
  String.prefix needle s ||
  match s with
  | EmptyString => false
  | String _ r => contains needle r
  end.

(** One hexadecimal digit of [d mod 16], as [%x] ([upper = false]) or
    [%X] ([upper = true]) prints it. *)
Definition hexdigit (upper : bool) (d : N) : ascii :=
  let d := (d mod 16)%N in
  if (d <? 10)%N then ascii_of_N (48 + d)
  else ascii_of_N ((if upper then 55 else 87) + d).

(** ["%02x" % b] / ["%02X" % b] for a byte value *)
Definition hex2 (upper : bool) (b : N) : string :=
  String (hexdigit upper (b / 16)) (String (hexdigit upper b) EmptyString).

(** The hexadecimal digits of [n], most significant first, without
    padding; [fuel] bounds the number of digits. *)
Fixpoint hex_digits (fuel : nat) (n : N) (acc : string) : string :=
  match fuel with
  | O => acc
  | S f =>
      let acc' := String (hexdigit false n) acc in
      if (n / 16 =? 0)%N then acc' else hex_digits f (n / 16) acc'
  end.

(** [c * k] for a one-character string [c] *)
Fixpoint repeat_char (c : ascii) (k : nat) : string :=
  match k with O => EmptyString | S k' => String c (repeat_char c k') end.

(** ["%04x" % n] for a non-negative [n]: at least four digits,
    zero-padded on the left. *)
Definition fmt_04x (n : N) : string :=
  let ds := hex_digits (S (N.to_nat (N.log2 n))) n EmptyString in
  repeat_char "0" (4 - String.length ds) +:+ ds.

(** [b.hex()] on [bytes] *)
Fixpoint bytes_hex (bs : list byte) : string :=
  match bs with
  | [] => EmptyString
  | b :: r => hex2 false (Byte.to_N b) +:+ bytes_hex r
  end.

(** [sep.join(parts)] *)
Fixpoint join (sep : string) (parts : list string) : string :=
  match parts with
  | [] => EmptyString
  | [p] => p
  | p :: r => p +:+ sep +:+ join sep r
  end.

(** [b[start:stop]] on [bytes], for non-negative bounds *)
Definition bytes_slice (b : list byte) (start stop : nat) : list byte :=
  drop start (take stop b).

(** Truth value of a [str]: empty is false. *)
Definition truthy (s : string) : bool := negb (String.eqb s EmptyString).

(** Truth value of [d.get(key)] for a [str]-valued key: a missing key
    gives [None], which is false, and so is an empty string. *)
Definition truthy_opt (o : option string) : bool :=
  match o with Some s => truthy s | None => false end.

End Py.

(* ===================================================================== *)
(** * ble_bridge.py: UUID normalisation                                  *)
(* ===================================================================== *)

Module Uuid.

(** Bluetooth Base UUID suffix *)
Definition _BT_BASE_SUFFIX : string := "00001000800000805f9b34fb".

(** What [_norm_uuid] is called with: a MicroPython [bluetooth.UUID]
    of 16 or 128 bits, or a plain [str].  The bytes of a 128-bit UUID
    are kept in the order in which they are displayed. *)
Inductive uuid_arg : Type :=
| UUID16 (v : N)
| UUID128 (bs : list byte)
| PlainStr (s : string).

(** [str(uuid)].  For the MicroPython objects this is the form the
    comments of [_norm_uuid] document:
    [UUID(0x2a9d)] and [UUID('12345678-1234-1234-1234-123456789abc')].
    The runtime prints every byte of the UUID with [%02x], so a 16-bit
    UUID always shows four digits. *)
Definition py_str (u : uuid_arg) : string :=
  match u with
  | UUID16 v =>
      "UUID(0x" +:+ Py.hex2 false (v / 256) +:+ Py.hex2 false v +:+ ")"
  | UUID128 bs =>
      "UUID('" +:+ Py.bytes_hex (take 4 bs)
        +:+ "-" +:+ Py.bytes_hex (take 2 (drop 4 bs))
        +:+ "-" +:+ Py.bytes_hex (take 2 (drop 6 bs))
        +:+ "-" +:+ Py.bytes_hex (take 2 (drop 8 bs))
        +:+ "-" +:+ Py.bytes_hex (drop 10 bs) +:+ "')"
  | PlainStr s => s
  end.

(** [_norm_uuid(uuid)] *)
Definition _norm_uuid (uuid : uuid_arg) : string :=
  let s := py_str uuid in
  if Py.startswith "UUID(0x" s && Py.endswith ")" s then
    "0000" +:+ Py.lower (Py.str_slice s 7 (-1)) +:+ _BT_BASE_SUFFIX
  else if Py.startswith "UUID('" s && Py.endswith "')" s then
    Py.lower (Py.replace1 "-" EmptyString (Py.str_slice s 6 (-2)))
  else
    Py.replace1 "-" EmptyString (Py.lower s).

(** Characters of the normal form: [0-9a-f]. *)
Definition is_lower_hex (c : ascii) : bool :=
  let n := N_of_ascii c in
  ((48 <=? n) && (n <=? 57) || (97 <=? n) && (n <=? 102))%N.

(** Characters of a hexadecimal digit in either case. *)
Definition is_hex (c : ascii) : bool :=
  let n := N_of_ascii c in
  ((48 <=? n) && (n <=? 57) || (97 <=? n) && (n <=? 102)
   || (65 <=? n) && (n <=? 70))%N.

Fixpoint all_chars (p : ascii -> bool) (s : string) : bool :=
  match s with
  | EmptyString => true
  | String c r => p c && all_chars p r
  end.

Fixpoint count_chars (p : ascii -> bool) (s : string) : nat :=
  match s with
  | EmptyString => 0
  | String c r => (if p c then 1 else 0) + count_chars p r
  end.

(** A 32-character lowercase hexadecimal string. *)
Definition is_hex32 (s : string) : bool :=
  (String.length s =? 32)%nat && all_chars is_lower_hex s.

(** The inputs the normaliser is specified on: a 16-bit UUID, a 128-bit
    UUID (16 bytes), or the text of a 128-bit UUID: 32 hexadecimal
    digits in either case, with dashes between them. *)
Definition valid_uuid (u : uuid_arg) : bool :=
  match u with
  | UUID16 v => (v <? 65536)%N
  | UUID128 bs => (length bs =? 16)%nat
  | PlainStr s =>
      all_chars (fun c => is_hex c || Ascii.eqb c "-") s
      && (count_chars is_hex s =? 32)%nat
  end.

End Uuid.

(* ===================================================================== *)
(** * ble_bridge.py: BleBridge.scan                                      *)
(* ===================================================================== *)

Module BleBridge.

(** Maximum raw scan entries to keep *)
Definition _MAX_SCAN_ENTRIES : nat := 200.

(** The exceptions [scan] can raise while it post-processes: indexing
    [bytes] out of range. *)
Inductive exn : Type := IndexError.

(** Result of running Python code: a value, an exception, or the fuel of
    a loop model used up. *)
Inductive outcome (A : Type) : Type :=
| Ok (a : A)
| Raise (e : exn)
| OutOfFuel.
Arguments Ok {A} a.
Arguments Raise {A} e.
Arguments OutOfFuel {A}.

Definition bind {A B} (m : outcome A) (k : A -> outcome B) : outcome B :=
  match m with
  | Ok a => k a
  | Raise e => Raise e
  | OutOfFuel => OutOfFuel
  end.

Notation "x <- m ;; k" := (bind m (fun x => k))
  (at level 100, m at next level, right associativity).

(** [b[i]] on [bytes], for a non-negative index *)
Definition getitem (b : list byte) (i : nat) : outcome N :=
  match b !! i with
  | Some x => Ok (Byte.to_N x)
  | None => Raise IndexError
  end.

(** The locals [name], [services], [mfr_id], [mfr_data] of one pass of
    the post-processing loop. *)
Record ad_fields : Type := mk_fields {
  f_name : string;
  f_services : list string;
  f_mfr_id : option N;
  f_mfr_data : option string
}.

Definition init_fields : ad_fields := mk_fields EmptyString [] None None.

(** The [for j in range(0, len(ad_payload) - 1, 2)] loop: one string per
    complete little-endian pair. *)
Fixpoint services16 (ad_payload : list byte) : list string :=
  match ad_payload with
  | lo :: hi :: rest =>
      Py.fmt_04x (N.lor (Byte.to_N lo) (N.shiftl (Byte.to_N hi) 8))
        :: services16 rest
  | _ => []
  end.

Section Parser.

(** [bytes.decode("utf-8")]: the decoded text, or [None] where it
    raises.  The decoder belongs to the runtime. *)
Variable utf8_decode : list byte -> option string.

(** The [if / elif] chain on [ad_type] in the body of the parse loop. *)
Definition ad_structure (length ad_type : N) (ad_payload : list byte)
    (st : ad_fields) : outcome ad_fields :=
  if (ad_type =? 0x09)%N || (ad_type =? 0x08)%N then
    match utf8_decode ad_payload with
    | Some s => Ok (mk_fields s (f_services st) (f_mfr_id st) (f_mfr_data st))
    | None => Ok st
    end
  else if (ad_type =? 0x03)%N || (ad_type =? 0x02)%N then
    Ok (mk_fields (f_name st) (f_services st ++ services16 ad_payload)
          (f_mfr_id st) (f_mfr_data st))
  else if (ad_type =? 0xFF)%N && (3 <=? length)%N then
    b0 <- getitem ad_payload 0 ;;
    b1 <- getitem ad_payload 1 ;;
    Ok (mk_fields (f_name st) (f_services st)
          (Some (N.lor b0 (N.shiftl b1 8)))
          (Some (Py.bytes_hex (drop 2 ad_payload))))
  else Ok st.

(** The [while i < len(raw)] loop.  [raw !! i = None] is the loop
    condition failing; [raw !! (i + 1) = None] is the
    [i + 1 >= len(raw)] break. *)
Fixpoint ad_loop (fuel : nat) (raw : list byte) (i : nat)
    (st : ad_fields) : outcome ad_fields :=
  match fuel with
  | O => OutOfFuel
  | S fuel' =>
      match raw !! i with
      | None => Ok st
      | Some lenb =>
          let length := Byte.to_N lenb in
          if (length =? 0)%N then Ok st
          else
            match raw !! (i + 1) with
            | None => Ok st
            | Some tyb =>
                let ad_payload :=
                  Py.bytes_slice raw (i + 2) (i + 1 + N.to_nat length) in
                st' <- ad_structure length (Byte.to_N tyb) ad_payload st ;;
                ad_loop fuel' raw (i + (N.to_nat length + 1)) st'
            end
      end
  end.

(** Parsing one raw advertisement payload. *)
Definition parse_ad (raw : list byte) : outcome ad_fields :=
  ad_loop (S (length raw)) raw 0 init_fields.

End Parser.

(** One value of the [seen] dict.  The keys [manufacturer_id] and
    [manufacturer_data] are optional. *)
Record entry : Type := mk_entry {
  address : string;
  name : string;
  rssi : Z;
  services : list string;
  addr_type : Z;
  manufacturer_id : option N;
  manufacturer_data : option string
}.

Definition set_rssi (e : entry) (r : Z) : entry :=
  mk_entry (address e) (name e) r (services e) (addr_type e)
    (manufacturer_id e) (manufacturer_data e).

Definition set_name (e : entry) (n : string) : entry :=
  mk_entry (address e) n (rssi e) (services e) (addr_type e)
    (manufacturer_id e) (manufacturer_data e).

Definition set_mfr (e : entry) (i : option N) (d : option string) : entry :=
  mk_entry (address e) (name e) (rssi e) (services e) (addr_type e) i d.

(** [":".join("%02X" % b for b in addr_bytes)] *)
Definition mac_of (addr_bytes : list byte) : string :=
  Py.join ":" (map (fun b => Py.hex2 true (Byte.to_N b)) addr_bytes).

(** The three [if]s of the [mac in seen] branch. *)
Definition merge (old : entry) (rssi' : Z) (f : ad_fields) : entry :=
  let e1 := if (rssi' >? rssi old)%Z then set_rssi old rssi' else old in
  let e2 :=
    if Py.truthy (f_name f) && negb (Py.truthy (name e1))
    then set_name e1 (f_name f) else e1 in
  if Py.truthy_opt (f_mfr_data f)
     && negb (Py.truthy_opt (manufacturer_data e2))
  then set_mfr e2 (f_mfr_id f) (f_mfr_data f) else e2.

(** The [else] branch: the first record of an address. *)
Definition fresh (mac : string) (addr_type' rssi' : Z) (f : ad_fields)
    : entry :=
  let e := mk_entry mac (f_name f) rssi' (f_services f) addr_type' None None in
  match f_mfr_id f with
  | Some i => set_mfr e (Some i) (f_mfr_data f)
  | None => e
  end.

(** The dedup step at the end of one pass of the post-processing loop. *)
Definition dedup (seen : gmap string entry) (mac : string)
    (addr_type' rssi' : Z) (f : ad_fields) : gmap string entry :=
  match seen !! mac with
  | Some old => <[mac := merge old rssi' f]> seen
  | None => <[mac := fresh mac addr_type' rssi' f]> seen
  end.

(** One element of [raw_results]:
    [(bytes(addr), addr_type, rssi, bytes(adv_data))]. *)
Record raw_result : Type := mk_raw {
  r_addr : list byte;
  r_addr_type : Z;
  r_rssi : Z;
  r_adv : list byte
}.

(** The tuple an IRQ delivers, in the order [_irq] unpacks it. *)
Record irq_data : Type := mk_irq_data {
  d_first : Z;
  d_addr : list byte;
  d_addr_type : Z;
  d_rssi : Z;
  d_adv_data : list byte
}.

(** [_irq(event, data)], acting on [raw_results]. *)
Definition _irq (event : Z) (data : irq_data) (raw_results : list raw_result)
    : list raw_result :=
  if (event =? 5)%Z then
    if (length raw_results <? _MAX_SCAN_ENTRIES)%nat then
      raw_results ++
        [mk_raw (d_addr data) (d_addr_type data) (d_rssi data) (d_adv_data data)]
    else raw_results
  else raw_results.

(** The IRQs delivered while [scan] sleeps, applied in order. *)
Definition collect (events : list (Z * irq_data)) (raw_results : list raw_result)
    : list raw_result :=
  fold_left (fun acc ev => _irq ev.1 ev.2 acc) events raw_results.

(** The noise filter of the list comprehension that builds [results]. *)
Definition keep (v : entry) : bool :=
  Py.truthy (name v) || Py.truthy_opt (manufacturer_data v).

(** [[v for v in seen.values() if ...]] *)
Definition results_of (seen : gmap string entry) : list entry :=
  List.filter keep (map snd (map_to_list seen)).

(** The radio, as [scan] drives it.  The calls on the radio are taken to
    succeed; their failures would only add exits. *)
Record radio : Type := mk_radio { active : bool; scanning : bool }.

(** [_ble.active(b)] *)
Definition ble_active (b : bool) (hw : radio) : radio :=
  mk_radio b (scanning hw).

(** [_ble.gap_scan(duration_ms, ...)] ([on = true]) and
    [_ble.gap_scan(None)] ([on = false]) *)
Definition ble_gap_scan (on : bool) (hw : radio) : radio :=
  mk_radio (active hw) on.

Section Scan.

Variable utf8_decode : list byte -> option string.

(** One pass of [for addr_bytes, addr_type, rssi, raw in raw_results]. *)
Definition process_one (seen : gmap string entry) (r : raw_result)
    : outcome (gmap string entry) :=
  let mac := mac_of (r_addr r) in
  f <- parse_ad utf8_decode (r_adv r) ;;
  Ok (dedup seen mac (r_addr_type r) (r_rssi r) f).

(** The post-processing loop. *)
Fixpoint post_process (rs : list raw_result) (seen : gmap string entry)
    : outcome (gmap string entry) :=
  match rs with
  | [] => Ok seen
  | r :: rest =>
      seen' <- process_one seen r ;;
      post_process rest seen'
  end.

(** [BleBridge.scan]: the IRQs that arrive during the sleep are its
    input; it returns the results or raises, and leaves the radio in
    the returned state. *)
Definition scan (events : list (Z * irq_data)) (hw : radio)
    : outcome (list entry) * radio :=
  let hw1 := ble_gap_scan true (ble_active true hw) in
  let raw_results := collect events [] in
  let hw2 := ble_gap_scan false hw1 in
  match post_process raw_results ∅ with
  | Ok seen => (Ok (results_of seen), ble_active false hw2)
  | Raise e => (Raise e, hw2)
  | OutOfFuel => (OutOfFuel, hw2)
  end.

End Scan.

End BleBridge.

(* ===================================================================== *)
(** * main.py: command handlers and dispatch                             *)
(* ===================================================================== *)

Module Main.

(** The payload of a published message: [str] or [bytes]. *)
Inductive payload : Type :=
| PStr (s : string)
| PBytes (b : list byte).

(** One element of [result["chars"]]. *)
Record char_info : Type := mk_char {
  uuid : string;
  properties : list string
}.

(** The calls the handlers make on their collaborators (the MQTT client,
    the bridge, the scheduler), in the order they are made.  [J] is the
    type of decoded JSON values.  [print] is left out. *)
Inductive call (J : Type) : Type :=
| Sleep_ms (ms : Z)
| Publish (t : string) (p : payload)
| Subscribe (t : string)
| BridgeDisconnect
| BridgeConnect (address addr_type : J)
| BridgeStartNotify (u : string)
| BridgeWrite (u : string) (data : list byte)
| BridgeRead (u : string).
Arguments Sleep_ms {J} ms.
Arguments Publish {J} t p.
Arguments Subscribe {J} t.
Arguments BridgeDisconnect {J}.
Arguments BridgeConnect {J} address addr_type.
Arguments BridgeStartNotify {J} u.
Arguments BridgeWrite {J} u data.
Arguments BridgeRead {J} u.

(** The collaborators.  [W] is their state, [E] the type of exceptions
    they raise, [J] the type of decoded JSON values.  Every awaited call
    takes a [W] and returns a value or an exception, and the next [W].
    - [env_sleep] runs the other tasks for a while and returns the value
      [_busy] has when the handler resumes (the scan loop is the only
      other writer of it);
    - [env_request payload] is [json.loads(payload)] followed by
      [data["address"]] and [data.get("addr_type", 0)]. *)
Record Env (W E J : Type) : Type := mk_env {
  env_sleep : Z -> bool -> W -> bool * W;
  env_request : list byte -> E + (J * J);
  env_disconnect : W -> (E + unit) * W;
  env_connect : J -> J -> W -> (E + list char_info) * W;
  env_subscribe : string -> W -> (E + unit) * W;
  env_start_notify : string -> W -> (E + unit) * W;
  env_publish : string -> payload -> W -> (E + unit) * W;
  env_write : string -> list byte -> W -> (E + unit) * W;
  env_read : string -> W -> (E + list byte) * W;
  env_dumps : list char_info -> string;
  env_str : E -> string
}.
Arguments env_sleep {W E J} _ _ _ _.
Arguments env_request {W E J} _ _.
Arguments env_disconnect {W E J} _ _.
Arguments env_connect {W E J} _ _ _ _.
Arguments env_subscribe {W E J} _ _ _.
Arguments env_start_notify {W E J} _ _ _.
Arguments env_publish {W E J} _ _ _ _.
Arguments env_write {W E J} _ _ _ _.
Arguments env_read {W E J} _ _ _.
Arguments env_dumps {W E J} _ _.
Arguments env_str {W E J} _ _.

(** The module-level flags of [main.py], the calls made so far, and the
    state of the collaborators. *)
Record state (W J : Type) : Type := mk_state {
  _busy : bool;
  _scan_paused : bool;
  _char_subscribed : bool;
  trace : list (call J);
  world : W
}.
Arguments mk_state {W J} _ _ _ _ _.
Arguments _busy {W J} _.
Arguments _scan_paused {W J} _.
Arguments _char_subscribed {W J} _.
Arguments trace {W J} _.
Arguments world {W J} _.

(** U+2014, as its UTF-8 bytes. *)
Definition em_dash : string :=
  String (ascii_of_nat 226) (String (ascii_of_nat 128)
    (String (ascii_of_nat 148) EmptyString)).

Definition busy_message : string :=
  "Busy " +:+ em_dash +:+ " another BLE operation is in progress".

Section Orchestrator.

Context {W E J : Type}.
Variable env : Env W E J.

(** [cfg["topic_prefix"]] and [cfg["device_id"]] *)
Variables PREFIX DEVICE_ID : string.

Definition BASE : string := PREFIX +:+ "/" +:+ DEVICE_ID.

Definition topic (suffix : string) : string := BASE +:+ "/" +:+ suffix.

(** Code that reads and writes the flags, calls collaborators, and
    returns a value or raises. *)
Definition M (A : Type) : Type := state W J -> (E + A) * state W J.

Definition ret {A} (a : A) : M A := fun s => (inr a, s).

Definition raise {A} (e : E) : M A := fun s => (inl e, s).

Definition mbind {A B} (m : M A) (k : A -> M B) : M B :=
  fun s =>
    match m s with
    | (inr a, s') => k a s'
    | (inl e, s') => (inl e, s')
    end.

Notation "x <- m ;; k" := (mbind m (fun x => k))
  (at level 100, m at next level, right associativity).
Notation "m ;;; k" := (mbind m (fun _ => k))
  (at level 100, right associativity).

(** [try: body except Exception as e: handler(e)] *)
Definition try_except {A} (body : M A) (handler : E -> M A) : M A :=
  fun s =>
    match body s with
    | (inr a, s') => (inr a, s')
    | (inl e, s') => handler e s'
    end.

(** [try: body finally: fin] *)
Definition try_finally {A} (body : M A) (fin : M unit) : M A :=
  fun s =>
    match body s with
    | (r, s') =>
        match fin s' with
        | (inr _, s'') => (r, s'')
        | (inl e, s'') => (inl e, s'')
        end
    end.

Definition get_busy : M bool := fun s => (inr (_busy s), s).

Definition get_char_subscribed : M bool :=
  fun s => (inr (_char_subscribed s), s).

Definition set_busy (b : bool) : M unit :=
  fun s => (inr tt,
            mk_state b (_scan_paused s) (_char_subscribed s) (trace s) (world s)).

Definition set_scan_paused (b : bool) : M unit :=
  fun s => (inr tt,
            mk_state (_busy s) b (_char_subscribed s) (trace s) (world s)).

Definition set_char_subscribed (b : bool) : M unit :=
  fun s => (inr tt,
            mk_state (_busy s) (_scan_paused s) b (trace s) (world s)).

(** An awaited call on a collaborator: recorded in the trace, its
    outcome taken from the environment; the call itself writes no flag.
    [_scan_paused] and [_char_subscribed] have no writer outside the
    command handlers, which run one at a time.  [_busy] is also written
    by the scan loop: the model lets it change during the sleeps of the
    busy wait, and does not say what the scan loop does to it during
    another awaited call. *)
Definition await {A} (c : call J) (op : W -> (E + A) * W) : M A :=
  fun s =>
    let (r, w') := op (world s) in
    (r, mk_state (_busy s) (_scan_paused s) (_char_subscribed s)
          (trace s ++ [c]) w').

(** [await asyncio.sleep_ms(ms)] inside the busy wait: other tasks run
    and may change [_busy]. *)
Definition sleep_ms (ms : Z) : M unit :=
  fun s =>
    let (b, w') := env_sleep env ms (_busy s) (world s) in
    (inr tt, mk_state b (_scan_paused s) (_char_subscribed s)
               (trace s ++ [Sleep_ms ms]) w').

Definition publish (t : string) (p : payload) : M unit :=
  await (Publish t p) (env_publish env t p).

Definition subscribe (t : string) : M unit :=
  await (Subscribe t) (env_subscribe env t).

(** [publish_error(message)]: a failure of the publish is swallowed. *)
Definition publish_error (message : string) : M unit :=
  try_except (publish (topic "error") (PStr message)) (fun _ => ret tt).

(** [for _ in range(n): if not _busy: break; await asyncio.sleep_ms(500)] *)
Fixpoint busy_wait (n : nat) : M unit :=
  match n with
  | O => ret tt
  | S k =>
      b <- get_busy ;;
      if negb b then ret tt
      else (sleep_ms 500 ;;; busy_wait k)
  end.

(** The [for char_info in result["chars"]] loop. *)
Fixpoint start_notifies (chars : list char_info) : M unit :=
  match chars with
  | [] => ret tt
  | c :: rest =>
      (if existsb (String.eqb "notify") (properties c)
       then await (BridgeStartNotify (uuid c)) (env_start_notify env (uuid c))
       else ret tt) ;;;
      start_notifies rest
  end.

(** The body of the [try] in [handle_connect]. *)
Definition connect_body (msg : list byte) : M unit :=
  req <- (fun s => (env_request env msg, s)) ;;
  await BridgeDisconnect (env_disconnect env) ;;;
  result <- await (BridgeConnect req.1 req.2) (env_connect env req.1 req.2) ;;
  subscribed <- get_char_subscribed ;;
  (if negb subscribed then
     subscribe (topic "write/#") ;;;
     subscribe (topic "read/#") ;;;
     set_char_subscribed true
   else ret tt) ;;;
  start_notifies result ;;;
  publish (topic "connected") (PStr (env_dumps env result)).

(** The state in which the busy wait of [handle_connect] ends. *)
Definition after_busy_wait (s : state W J) : state W J :=
  (mbind (set_scan_paused true) (fun _ => busy_wait 60) s).2.

(** [handle_connect(payload)] *)
Definition handle_connect (msg : list byte) : M unit :=
  set_scan_paused true ;;;
  busy_wait 60 ;;;
  b <- get_busy ;;
  if b then
    set_scan_paused false ;;;
    publish_error busy_message
  else
    set_busy true ;;;
    try_finally
      (try_except (connect_body msg)
         (fun e => set_scan_paused false ;;; raise e))
      (set_busy false).

(** [handle_disconnect()] *)
Definition handle_disconnect : M unit :=
  await BridgeDisconnect (env_disconnect env) ;;;
  set_char_subscribed false ;;;
  set_scan_paused false ;;;
  publish (topic "disconnected") (PStr EmptyString).

(** [handle_write(uuid_str, payload)] *)
Definition handle_write (uuid_str : string) (msg : list byte) : M unit :=
  await (BridgeWrite uuid_str msg) (env_write env uuid_str msg).

(** [handle_read(uuid_str)] *)
Definition handle_read (uuid_str : string) : M unit :=
  data <- await (BridgeRead uuid_str) (env_read env uuid_str) ;;
  publish (topic ("read/" +:+ uuid_str +:+ "/response")) (PBytes data).

(** [t[len(p):]] *)
Definition after_prefix (p t : string) : string :=
  Py.str_from t (Z.of_nat (String.length p)).

(** The body of [while _pending:] in [main], for one popped message
    [(t, msg)]. *)
Definition dispatch (t : string) (msg : list byte) : M unit :=
  try_except
    (if String.eqb t (topic "connect") then handle_connect msg
     else if String.eqb t (topic "disconnect") then handle_disconnect
     else if Py.startswith (topic "write/") t then
       handle_write (after_prefix (topic "write/") t) msg
     else if Py.startswith (topic "read/") t then
       let suffix := after_prefix (topic "read/") t in
       if negb (Py.contains "/response" suffix) then handle_read suffix
       else ret tt
     else ret tt)
    (fun e => publish_error (env_str env e)).

End Orchestrator.

End Main.

(* ===================================================================== *)
(** * Concrete collaborators for running the model                       *)
(* ===================================================================== *)

Module Sample.

Import BleBridge Main.

(** A decoder that accepts 7-bit text, on which it agrees with UTF-8. *)
Definition ascii_decode (b : list byte) : option string :=
  if forallb (fun x => (Byte.to_N x <? 128)%N) b
  then Some (string_of_list_byte b) else None.

(** Collaborators in which every call succeeds and a scan stays in
    flight for ever: [_busy] is true after every sleep. *)
Definition stuck_env : Env unit string string :=
  mk_env unit string string
    (fun _ _ w => (true, w))
    (fun _ => inr ("AA:BB:CC:DD:EE:FF", "0"))
    (fun w => (inr tt, w))
    (fun _ _ w => (inr [], w))
    (fun _ w => (inr tt, w))
    (fun _ w => (inr tt, w))
    (fun _ _ w => (inr tt, w))
    (fun _ _ w => (inr tt, w))
    (fun _ w => (inr [], w))
    (fun _ => "{}")
    (fun e => e).

(** Collaborators in which the radio is free and the connection attempt
    times out. *)
Definition timeout_env : Env unit string string :=
  mk_env unit string string
    (fun _ b w => (b, w))
    (fun _ => inr ("AA:BB:CC:DD:EE:FF", "0"))
    (fun w => (inr tt, w))
    (fun _ _ w => (inl "timeout", w))
    (fun _ w => (inr tt, w))
    (fun _ w => (inr tt, w))
    (fun _ _ w => (inr tt, w))
    (fun _ _ w => (inr tt, w))
    (fun _ w => (inr [], w))
    (fun _ => "{}")
    (fun e => e).

Definition idle : state unit string := mk_state false false false [] tt.

Definition scanning_now : state unit string := mk_state true false false [] tt.

(** An advertisement of the device AA:BB:CC:DD:EE:FF, as the IRQ
    delivers it. *)
Definition adv (rssi' : Z) (raw : list byte) : Z * irq_data :=
  (5%Z, mk_irq_data 0 [xaa; xbb; xcc; xdd; xee; xff] 0 rssi' raw).

(** The radio before a scan. *)
Definition off : radio := mk_radio false false.

End Sample.

(* ===================================================================== *)
(** * Predicates used in the statements                                  *)
(* ===================================================================== *)

Module Props.

Import BleBridge Main.

(** No manufacturer field has been assigned. *)
Definition no_mfr (f : ad_fields) : Prop :=
  f_mfr_id f = None /\ f_mfr_data f = None.

(** The manufacturer fields of [f] were taken from a structure of [raw]
    of type 0xFF whose length byte is at least 3: the id from the first
    two bytes of its payload, the data from the rest. *)
Definition mfr_from (raw : list byte) (f : ad_fields) : Prop :=
  exists (i : nat) (lenb tyb b0 b1 : byte),
    raw !! i = Some lenb /\ raw !! (i + 1) = Some tyb
    /\ Byte.to_N tyb = 0xFF%N /\ (3 <= Byte.to_N lenb)%N
    /\ let p := Py.bytes_slice raw (i + 2) (i + 1 + N.to_nat (Byte.to_N lenb)) in
       p !! 0 = Some b0 /\ p !! 1 = Some b1
       /\ f_mfr_id f = Some (N.lor (Byte.to_N b0) (N.shiftl (Byte.to_N b1) 8))
       /\ f_mfr_data f = Some (Py.bytes_hex (drop 2 p)).

(** The advertisements among the IRQs, in arrival order, as [_irq]
    stores them. *)
Definition advertisements (events : list (Z * irq_data)) : list raw_result :=
  map (fun ev => mk_raw (d_addr ev.2) (d_addr_type ev.2) (d_rssi ev.2)
                   (d_adv_data ev.2))
      (List.filter (fun ev => (ev.1 =? 5)%Z) events).

(** A record counts as carrying manufacturer data when the value under
    its [manufacturer_data] key is a non-empty string. *)
Definition has_mfr_data (e : entry) : Prop :=
  exists d, manufacturer_data e = Some d /\ d <> EmptyString.

(** A computation that leaves [_busy] and [_scan_paused] as they are. *)
Definition keeps_flags {W E J A} (m : @Main.M W E J A) : Prop :=
  forall s, _busy (m s).2 = _busy s /\ _scan_paused (m s).2 = _scan_paused s.

End Props.

(* ===================================================================== *)
(** * Well-formed advertisement payloads                                 *)
(* ===================================================================== *)

Module Tlv.

Import BleBridge.

Local Open Scope list_scope.

(** One AD structure as it lies in a payload: the length byte, the type
    byte and the value bytes. *)
Record ad_struct : Type := mk_ad {
  ad_len : byte;
  ad_ty : byte;
  ad_data : list byte
}.

(** The length byte counts the type byte and the value bytes. *)
Definition complete (a : ad_struct) : Prop :=
  N.to_nat (Byte.to_N (ad_len a)) = S (length (ad_data a)).

(** The payload that holds the structures one after the other. *)
Fixpoint encode (ads : list ad_struct) : list byte :=
  match ads with
  | [] => []
  | a :: rest => ad_len a :: ad_ty a :: ad_data a ++ encode rest
  end.

Definition is_name (a : ad_struct) : bool :=
  (Byte.to_N (ad_ty a) =? 0x09)%N || (Byte.to_N (ad_ty a) =? 0x08)%N.

Definition is_services (a : ad_struct) : bool :=
  (Byte.to_N (ad_ty a) =? 0x03)%N || (Byte.to_N (ad_ty a) =? 0x02)%N.

Definition is_mfr (a : ad_struct) : bool :=
  (Byte.to_N (ad_ty a) =? 0xFF)%N && (2 <=? length (ad_data a))%nat.

(** The names the payload carries, in order: the value of every name
    structure that decodes. *)
Definition names (utf8_decode : list byte -> option string)
    (ads : list ad_struct) : list string :=
  omap (fun a => if is_name a then utf8_decode (ad_data a) else None) ads.

(** The 16-bit service UUIDs the payload carries, in order. *)
Definition service_uuids (ads : list ad_struct) : list string :=
  flat_map (fun a => if is_services a then services16 (ad_data a) else []) ads.

(** The manufacturer id and data of every manufacturer structure with at
    least two value bytes, in order. *)
Definition mfrs (ads : list ad_struct) : list (N * string) :=
  omap (fun a =>
          if is_mfr a then
            match ad_data a with
            | b0 :: b1 :: rest =>
                Some (N.lor (Byte.to_N b0) (N.shiftl (Byte.to_N b1) 8),
                      Py.bytes_hex rest)
            | _ => None
            end
          else None) ads.

(** The fields a payload adds to [st]: the last name, all services, the
    last manufacturer structure. *)
Definition fields_after (utf8_decode : list byte -> option string)
    (st : ad_fields) (ads : list ad_struct) : ad_fields :=
  mk_fields
    (default (f_name st) (last (names utf8_decode ads)))
    (f_services st ++ service_uuids ads)
    (match last (mfrs ads) with Some m => Some m.1 | None => f_mfr_id st end)
    (match last (mfrs ads) with Some m => Some m.2 | None => f_mfr_data st end).

(** The parse loop started at offset [i] with fuel for the whole
    payload. *)
Definition run (utf8_decode : list byte -> option string)
    (raw : list byte) (i : nat) (st : ad_fields) : outcome ad_fields :=
  ad_loop utf8_decode (S (length raw)) raw i st.

(** The MAC strings of a list of raw results. *)
Definition macs (rs : list raw_result) : list string :=
  map (fun r => mac_of (r_addr r)) rs.

(** The keys of [seen] are the MAC strings of the advertisements
    processed, and every record is stored under its own address. *)
Definition keyed (seen : gmap string entry) (done : list raw_result) : Prop :=
  (forall mac, is_Some (seen !! mac) <-> mac ∈ macs done)
  /\ (forall mac e, seen !! mac = Some e -> address e = mac).

(** The RSSI of a record is that of one of the advertisements of its
    address, and none of them has a higher one. *)
Definition strongest (seen : gmap string entry) (done : list raw_result) : Prop :=
  forall mac e,
    seen !! mac = Some e ->
    (exists r, r ∈ done /\ mac_of (r_addr r) = mac /\ r_rssi r = rssi e)
    /\ (forall r, r ∈ done -> mac_of (r_addr r) = mac -> (r_rssi r <= rssi e)%Z).

(** What later advertisements of an address leave alone in its record
    [e]: the address, the services and the address type always, the name
    once it is non-empty, the manufacturer id and data once the data is
    non-empty. *)
Definition same_static (e e' : entry) : Prop :=
  address e' = address e /\ services e' = services e
  /\ addr_type e' = addr_type e
  /\ (name e <> EmptyString -> name e' = name e)
  /\ (Py.truthy_opt (manufacturer_data e) = true ->
      manufacturer_id e' = manufacturer_id e
      /\ manufacturer_data e' = manufacturer_data e).


(** All byte values. *)
Definition all_bytes : list byte :=
  omap (fun n => Byte.of_N (N.of_nat n)) (seq 0 256).

End Tlv.

Module Cmd.

Import Main.

Local Open Scope list_scope.

(** The UUIDs of the characteristics that list the notify property, in
    order. *)
Definition notify_uuids (chars : list char_info) : list string :=
  map uuid (List.filter (fun c => existsb (String.eqb "notify") (properties c)) chars).

(** The calls of a Connect sequence that runs to its end: tear down,
    connect, subscribe to the wildcard topics unless that was done
    before, start the notify forwarding, publish the connected event. *)
Definition connect_calls {J : Type} (PREFIX DEVICE_ID : string)
    (subscribed : bool) (address addr_type : J) (chars : list char_info)
    (dumped : string) : list (call J) :=
  [BridgeDisconnect; BridgeConnect address addr_type]
  ++ (if subscribed then []
      else [Subscribe (topic PREFIX DEVICE_ID "write/#");
            Subscribe (topic PREFIX DEVICE_ID "read/#")])
  ++ map BridgeStartNotify (notify_uuids chars)
  ++ [Publish (topic PREFIX DEVICE_ID "connected") (PStr dumped)].

End Cmd.

Module CmdSample.

Import Main.

(** What a scale reports: a measurement characteristic that notifies, one
    that only indicates, and one that is read and written. *)
Definition scale_chars : list char_info :=
  [mk_char "00002a9d00001000800000805f9b34fb" ["notify"; "indicate"];
   mk_char "00002a9e00001000800000805f9b34fb" ["indicate"];
   mk_char "00002a9f00001000800000805f9b34fb" ["read"; "write"]].

(** Collaborators in which the radio is free, every call succeeds and
    [bridge.connect] reports [scale_chars]. *)
Definition scale_env : Env unit string string :=
  mk_env unit string string
    (fun _ b w => (b, w))
    (fun _ => inr ("AA:BB:CC:DD:EE:FF", "0"))
    (fun w => (inr tt, w))
    (fun _ _ w => (inr scale_chars, w))
    (fun _ w => (inr tt, w))
    (fun _ w => (inr tt, w))
    (fun _ _ w => (inr tt, w))
    (fun _ _ w => (inr tt, w))
    (fun _ w => (inr [], w))
    (fun cs => String.concat "," (map uuid cs))
    (fun e => e).

End CmdSample.

(* ===================================================================== *)
(** * ble_bridge.py: the GATT session of BleBridge                       *)
(* ===================================================================== *)

Module Session.

Import Uuid.

Local Open Scope list_scope.

(** [s.split(sep)] for a one-character [sep]: the pieces between the
    separators, at least one. *)
Fixpoint split1 (sep : ascii) (s : string) : list string :=
  match s with
  | EmptyString => [EmptyString]
  | String c r =>
      if Ascii.eqb c sep then EmptyString :: split1 sep r
      else match split1 sep r with
           | h :: t => String c h :: t
           | [] => [String c EmptyString]
           end
  end.

(** One element of [bytes(iterable)]: an integer outside [range(256)]
    raises [ValueError], here [None]. *)
Definition byte_of_int (v : Z) : option byte :=
  if ((0 <=? v) && (v <? 256))%Z then Byte.of_N (Z.to_N v) else None.

(** What the session code raises: [ValueError] from [int] and [bytes],
    or an exception of a collaborator. *)
Inductive exn (E : Type) : Type :=
| ValueError
| Ext (e : E).
Arguments ValueError {E}.
Arguments Ext {E} e.

(** The calls made on the radio, on aioble and on the scheduler, in the
    order they are made.  [A] is the type of aioble's address types, [C]
    of connections, [S] of services, [K] of characteristics, [T] of
    tasks. *)
Inductive call (A C S K T : Type) : Type :=
| Active (on : bool)
| DeviceConnect (addr_type : A) (addr : list byte)
| Services (conn : C)
| Characteristics (service : S)
| CharWrite (char : K) (data : list byte)
| CharRead (char : K)
| ConnDisconnect (conn : C)
| CreateTask (uuid_str : string) (char : K)
| Cancel (task : T).
Arguments Active {A C S K T} on.
Arguments DeviceConnect {A C S K T} addr_type addr.
Arguments Services {A C S K T} conn.
Arguments Characteristics {A C S K T} service.
Arguments CharWrite {A C S K T} char data.
Arguments CharRead {A C S K T} char.
Arguments ConnDisconnect {A C S K T} conn.
Arguments CreateTask {A C S K T} uuid_str char.
Arguments Cancel {A C S K T} task.

(** The runtime and aioble.  [D] is their state and [E] the type of the
    exceptions they raise.
    - [int16 s] is [int(s, 16)], [None] where it raises [ValueError];
    - [ADDR_PUBLIC], [ADDR_RANDOM] and the [FLAG_] constants are those of
      [aioble] and [bluetooth];
    - [ble_active on] is [_ble.active(on)];
    - [device_connect t a] is [aioble.Device(t, a).connect(timeout_ms=15000)];
    - [create_task u k] is [asyncio.create_task] on the notify loop of
      characteristic [k]; [cancel] is [task.cancel()]. *)
Record Aioble (A C S K T D E : Type) : Type := mk_aioble {
  int16 : string -> option Z;
  ADDR_PUBLIC : A;
  ADDR_RANDOM : A;
  FLAG_READ : N;
  FLAG_WRITE : N;
  FLAG_NOTIFY : N;
  FLAG_WRITE_NO_RESPONSE : N;
  FLAG_INDICATE : N;
  ble_active : bool -> D -> (E + unit) * D;
  device_connect : A -> list byte -> D -> (E + C) * D;
  conn_services : C -> D -> (E + list S) * D;
  service_characteristics : S -> D -> (E + list K) * D;
  char_uuid : K -> uuid_arg;
  char_properties : K -> N;
  char_write : K -> list byte -> D -> (E + unit) * D;
  char_read : K -> D -> (E + list byte) * D;
  conn_disconnect : C -> D -> (E + unit) * D;
  create_task : string -> K -> D -> T * D;
  cancel : T -> D -> D
}.
Arguments int16 {A C S K T D E} _ _.
Arguments ADDR_PUBLIC {A C S K T D E} _.
Arguments ADDR_RANDOM {A C S K T D E} _.
Arguments FLAG_READ {A C S K T D E} _.
Arguments FLAG_WRITE {A C S K T D E} _.
Arguments FLAG_NOTIFY {A C S K T D E} _.
Arguments FLAG_WRITE_NO_RESPONSE {A C S K T D E} _.
Arguments FLAG_INDICATE {A C S K T D E} _.
Arguments ble_active {A C S K T D E} _ _ _.
Arguments device_connect {A C S K T D E} _ _ _ _.
Arguments conn_services {A C S K T D E} _ _ _.
Arguments service_characteristics {A C S K T D E} _ _ _.
Arguments char_uuid {A C S K T D E} _ _.
Arguments char_properties {A C S K T D E} _ _.
Arguments char_write {A C S K T D E} _ _ _ _.
Arguments char_read {A C S K T D E} _ _ _.
Arguments conn_disconnect {A C S K T D E} _ _ _.
Arguments create_task {A C S K T D E} _ _ _ _.
Arguments cancel {A C S K T D E} _ _ _.

(** The attributes of a [BleBridge], the calls made so far, and the state
    of the runtime. *)
Record bridge (A C S K T D : Type) : Type := mk_bridge {
  _conn : option C;
  _chars : gmap string K;
  _notify_tasks : list T;
  calls : list (call A C S K T);
  dev : D
}.
Arguments mk_bridge {A C S K T D} _ _ _ _ _.
Arguments _conn {A C S K T D} _.
Arguments _chars {A C S K T D} _.
Arguments _notify_tasks {A C S K T D} _.
Arguments calls {A C S K T D} _.
Arguments dev {A C S K T D} _.

Section Bridge.

Context {A C S K T D E : Type}.
Variable io : Aioble A C S K T D E.

Abbreviation state := (bridge A C S K T D).

(** [BleBridge.__init__] *)
Definition init (d : D) : state := mk_bridge None ∅ [] [] d.

(** A method body: reads and writes the attributes, calls collaborators,
    returns a value or raises. *)
Definition B (X : Type) : Type := state -> (exn E + X) * state.

Definition ret {X} (x : X) : B X := fun s => (inr x, s).

Definition bbind {X Y} (m : B X) (k : X -> B Y) : B Y :=
  fun s =>
    match m s with
    | (inr x, s') => k x s'
    | (inl e, s') => (inl e, s')
    end.

Notation "x <- m ;; k" := (bbind m (fun x => k))
  (at level 100, m at next level, right associativity).
Notation "m ;;; k" := (bbind m (fun _ => k))
  (at level 100, right associativity).

(** A call on a collaborator that may raise. *)
Definition perform {X} (c : call A C S K T) (op : D -> (E + X) * D) : B X :=
  fun s =>
    let (r, d') := op (dev s) in
    (match r with inl e => inl (Ext e) | inr x => inr x end,
     mk_bridge (_conn s) (_chars s) (_notify_tasks s) (calls s ++ [c]) d').

(** [try: await op except Exception: pass] *)
Definition attempt (c : call A C S K T) (op : D -> (E + unit) * D) : B unit :=
  fun s =>
    let (_, d') := op (dev s) in
    (inr tt, mk_bridge (_conn s) (_chars s) (_notify_tasks s) (calls s ++ [c]) d').

Definition set_conn (c : option C) : B unit :=
  fun s => (inr tt, mk_bridge c (_chars s) (_notify_tasks s) (calls s) (dev s)).

Definition set_chars (m : gmap string K) : B unit :=
  fun s => (inr tt, mk_bridge (_conn s) m (_notify_tasks s) (calls s) (dev s)).

(** [bytes(int(b, 16) for b in address.split(":"))], [None] where it
    raises [ValueError]. *)
Definition addr_bytes_of (address : string) : option (list byte) :=
  mapM (fun b => match int16 io b with
                 | Some v => byte_of_int v
                 | None => None
                 end)
       (split1 ":" address).

(** The [props] list of one characteristic. *)
Definition props_of (flags : N) : list string :=
  (if negb (N.land flags (FLAG_READ io) =? 0)%N then ["read"] else [])
  ++ (if negb (N.land flags (FLAG_WRITE io) =? 0)%N then ["write"] else [])
  ++ (if negb (N.land flags (FLAG_NOTIFY io) =? 0)%N then ["notify"] else [])
  ++ (if negb (N.land flags (FLAG_WRITE_NO_RESPONSE io) =? 0)%N
      then ["write-without-response"] else [])
  ++ (if negb (N.land flags (FLAG_INDICATE io) =? 0)%N then ["indicate"] else []).

(** The body of [for char in ...]: register the characteristic under its
    normalised UUID and describe it. *)
Definition register (acc : gmap string K * list Main.char_info) (char : K)
    : gmap string K * list Main.char_info :=
  let uuid_str := _norm_uuid (char_uuid io char) in
  (<[uuid_str := char]> acc.1,
   acc.2 ++ [Main.mk_char uuid_str (props_of (char_properties io char))]).

(** What the loop over the characteristics of a service keeps: every
    description has its characteristic registered under the UUID it
    reports, and nothing is registered without a description. *)
Definition registered (acc : gmap string K * list Main.char_info) : Prop :=
  (forall ci, ci ∈ acc.2 ->
     exists k, acc.1 !! Main.uuid ci = Some k
               /\ _norm_uuid (char_uuid io k) = Main.uuid ci)
  /\ (forall u k, acc.1 !! u = Some k -> exists ci, ci ∈ acc.2 /\ Main.uuid ci = u).

(** The calls [connect] makes after it has switched the radio on. *)
Definition discovery_call (c : call A C S K T) : bool :=
  match c with
  | DeviceConnect _ _ | Services _ | Characteristics _ => true
  | _ => false
  end.

(** The [for service in ...] loop, with [chars_info] passed along. *)
Fixpoint discover (services : list S) (chars_info : list Main.char_info)
    : B (list Main.char_info) :=
  match services with
  | [] => ret chars_info
  | service :: rest =>
      chars <- perform (Characteristics service)
                 (service_characteristics io service) ;;
      info <- (fun s =>
                 let acc := fold_left register chars (_chars s, chars_info) in
                 (inr acc.2,
                  mk_bridge (_conn s) acc.1 (_notify_tasks s) (calls s) (dev s))) ;;
      discover rest info
  end.

(** [BleBridge.connect(address, addr_type)]; the result is the list under
    the key [chars]. *)
Definition connect (address : string) (addr_type : Z) : B (list Main.char_info) :=
  perform (Active true) (ble_active io true) ;;;
  addr_bytes <- (fun s => (match addr_bytes_of address with
                           | Some b => inr b
                           | None => inl ValueError
                           end, s)) ;;
  let aioble_addr_type :=
    if (addr_type =? 1)%Z then ADDR_RANDOM io else ADDR_PUBLIC io in
  conn <- perform (DeviceConnect aioble_addr_type addr_bytes)
            (device_connect io aioble_addr_type addr_bytes) ;;
  set_conn (Some conn) ;;;
  set_chars ∅ ;;;
  services <- perform (Services conn) (conn_services io conn) ;;
  discover services [].

(** [BleBridge.start_notify(uuid_str, publish_fn)] *)
Definition start_notify (uuid_str : string) : B unit :=
  fun s =>
    match _chars s !! uuid_str with
    | None => (inr tt, s)
    | Some char =>
        let (task, d') := create_task io uuid_str char (dev s) in
        (inr tt,
         mk_bridge (_conn s) (_chars s) (_notify_tasks s ++ [task])
           (calls s ++ [CreateTask uuid_str char]) d')
    end.

(** [BleBridge.write(uuid_str, data)] *)
Definition write (uuid_str : string) (data : list byte) : B unit :=
  fun s =>
    match _chars s !! uuid_str with
    | Some char => perform (CharWrite char data) (char_write io char data) s
    | None => (inr tt, s)
    end.

(** [BleBridge.read(uuid_str)] *)
Definition read (uuid_str : string) : B (list byte) :=
  fun s =>
    match _chars s !! uuid_str with
    | Some char => perform (CharRead char) (char_read io char) s
    | None => (inr [], s)
    end.

(** The [for task in self._notify_tasks: task.cancel()] loop. *)
Fixpoint cancel_all (tasks : list T) : B unit :=
  match tasks with
  | [] => ret tt
  | task :: rest =>
      (fun s => (inr tt,
                 mk_bridge (_conn s) (_chars s) (_notify_tasks s)
                   (calls s ++ [Cancel task]) (cancel io task (dev s)))) ;;;
      cancel_all rest
  end.

(** [BleBridge.disconnect()] *)
Definition disconnect : B unit :=
  tasks <- (fun s => (inr (_notify_tasks s), s)) ;;
  cancel_all tasks ;;;
  (fun s => (inr tt, mk_bridge (_conn s) (_chars s) [] (calls s) (dev s))) ;;;
  conn <- (fun s => (inr (_conn s), s)) ;;
  match conn with
  | Some c =>
      attempt (ConnDisconnect c) (conn_disconnect io c) ;;;
      set_conn None
  | None => ret tt
  end ;;;
  set_chars ∅ ;;;
  attempt (Active false) (ble_active io false).

(** A method that only adds discovery calls and leaves the notify tasks
    alone. *)
Definition discovers {X} (m : B X) : Prop :=
  forall s : state,
    _notify_tasks (m s).2 = _notify_tasks s
    /\ exists new, calls (m s).2 = calls s ++ new
                   /\ forallb discovery_call new = true.

End Bridge.

End Session.

Module SessionSample.

Import Uuid Session.

(** The value of one hexadecimal digit. *)
Definition digit_value (c : ascii) : option Z :=
  let n := Z.of_N (N_of_ascii c) in
  if ((48 <=? n) && (n <=? 57))%Z then Some (n - 48)%Z
  else if ((65 <=? n) && (n <=? 70))%Z then Some (n - 55)%Z
  else if ((97 <=? n) && (n <=? 102))%Z then Some (n - 87)%Z
  else None.

Fixpoint digits_value (acc : Z) (s : string) : option Z :=
  match s with
  | EmptyString => Some acc
  | String c r =>
      match digit_value c with
      | Some d => digits_value (16 * acc + d) r
      | None => None
      end
  end.

(** A reading of base-16 numerals that agrees with [int(s, 16)] on
    non-empty strings of hexadecimal digits. *)
Definition hex_value (s : string) : option Z :=
  match s with
  | EmptyString => None
  | _ => digits_value 0 s
  end.

(** A peripheral with one service and two characteristics: 0x2A9D with
    notify and indicate, 0x2A9E with read.  Handles are numbers, every
    call succeeds, the flag values are those of MicroPython. *)
Definition scale : Aioble nat nat nat nat nat unit string :=
  mk_aioble nat nat nat nat nat unit string
    hex_value 0 1 2%N 8%N 16%N 4%N 32%N
    (fun _ d => (inr tt, d))
    (fun _ _ d => (inr 7, d))
    (fun _ d => (inr [0], d))
    (fun _ d => (inr [1; 2], d))
    (fun k => UUID16 (if (k =? 1)%nat then 0x2A9D else 0x2A9E)%N)
    (fun k => if (k =? 1)%nat then 48%N else 2%N)
    (fun _ _ d => (inr tt, d))
    (fun _ d => (inr [x2a], d))
    (fun _ d => (inr tt, d))
    (fun _ k d => (100 + k, d))
    (fun _ d => d).

(** The same peripheral, out of reach: the connection attempt times
    out. *)
Definition out_of_reach : Aioble nat nat nat nat nat unit string :=
  mk_aioble nat nat nat nat nat unit string
    hex_value 0 1 2%N 8%N 16%N 4%N 32%N
    (fun _ d => (inr tt, d))
    (fun _ _ d => (inl "timeout", d))
    (fun _ d => (inr [0], d))
    (fun _ d => (inr [1; 2], d))
    (fun k => UUID16 (if (k =? 1)%nat then 0x2A9D else 0x2A9E)%N)
    (fun k => if (k =? 1)%nat then 48%N else 2%N)
    (fun _ _ d => (inr tt, d))
    (fun _ d => (inr [x2a], d))
    (fun _ d => (inr tt, d))
    (fun _ k d => (100 + k, d))
    (fun _ d => d).

Definition fresh_bridge : bridge nat nat nat nat nat unit := init tt.

End SessionSample.

Module Discovery.

Import Uuid Session.

Local Open Scope list_scope.

Section Discovered.

Context {A C S K T D E : Type}.
Variable io : Aioble A C S K T D E.

(** The entry of [chars_info] that [connect] appends for one
    characteristic. *)
Definition describe (char : K) : Main.char_info :=
  Main.mk_char (_norm_uuid (char_uuid io char))
    (props_of io (char_properties io char)).

(** The characteristics that the services hand out, in the order in which
    the two nested loops of [connect] meet them, and the state of the
    runtime afterwards; [None] if one of the calls raises. *)
Fixpoint discovered (services : list S) (d : D) : option (list K * D) :=
  match services with
  | [] => Some ([], d)
  | service :: rest =>
      match service_characteristics io service d with
      | (inr chars, d') =>
          match discovered rest d' with
          | Some (more, d'') => Some (chars ++ more, d'')
          | None => None
          end
      | (inl _, _) => None
      end
  end.

(** The last characteristic of [chars] whose normalised UUID is [u]. *)
Definition last_with (u : string) (chars : list K) : option K :=
  last (List.filter (fun k => String.eqb (_norm_uuid (char_uuid io k)) u) chars).

End Discovered.

End Discovery.

Module DiscoverySample.

Import Uuid Session.

(** A peripheral with two services that both hand out a characteristic
    0x2A9D: handles 1 and 2 in the first service, 3 and 4 in the second,
    odd handles being 0x2A9D (notify, indicate) and even ones 0x2A9E
    (read).  Every call succeeds. *)
Definition twin : Aioble nat nat nat nat nat unit string :=
  mk_aioble nat nat nat nat nat unit string
    SessionSample.hex_value 0 1 2%N 8%N 16%N 4%N 32%N
    (fun _ d => (inr tt, d))
    (fun _ _ d => (inr 7, d))
    (fun _ d => (inr [0; 1], d))
    (fun sv d => (inr (if (sv =? 0)%nat then [1; 2] else [3; 4]), d))
    (fun k => UUID16 (if Nat.odd k then 0x2A9D else 0x2A9E)%N)
    (fun k => if Nat.odd k then 48%N else 2%N)
    (fun _ _ d => (inr tt, d))
    (fun _ d => (inr [x2a], d))
    (fun _ d => (inr tt, d))
    (fun _ k d => (100 + k, d))
    (fun _ d => d).

End DiscoverySample.

(* ===================================================================== *)
(** * main.py: the autonomous scan loop and on_connect                   *)
(* ===================================================================== *)

Module Loop.

Local Open Scope list_scope.

(** The awaited calls of [scan_loop] and [on_connect], in the order they
    are made. *)
Inductive call : Type :=
| Sleep (ms : Z)
| Scan
| Publish (t : string) (p : Main.payload) (retain : bool) (qos : Z)
| Subscribe (t : string) (qos : Z).

(** The collaborators of the scan loop.  [W] is their state, [E] the
    type of the exceptions they raise, [R] the type of the scan results.
    - [isconnected] is [client.isconnected()];
    - [others w] is what the other tasks that ran during the last await
      left in [_subs_ready], [None] if none of them wrote it;
    - [sleep ms] is [asyncio.sleep_ms(ms)], and [asyncio.sleep(1)] for
      1000;
    - [bridge_scan] is [bridge.scan()];
    - [ticks_ms] and [ticks_diff] are those of [time]. *)
Record Env (W E R : Type) : Type := mk_env {
  isconnected : W -> bool;
  others : W -> option bool;
  sleep : Z -> W -> W;
  bridge_scan : W -> (E + R) * W;
  publish : string -> Main.payload -> bool -> Z -> W -> (E + unit) * W;
  subscribe : string -> Z -> W -> (E + unit) * W;
  dumps : R -> string;
  str : E -> string;
  ticks_ms : W -> Z;
  ticks_diff : Z -> Z -> Z
}.
Arguments isconnected {W E R} _ _.
Arguments others {W E R} _ _.
Arguments sleep {W E R} _ _ _.
Arguments bridge_scan {W E R} _ _.
Arguments publish {W E R} _ _ _ _ _ _.
Arguments subscribe {W E R} _ _ _ _.
Arguments dumps {W E R} _ _.
Arguments str {W E R} _ _.
Arguments ticks_ms {W E R} _ _.
Arguments ticks_diff {W E R} _ _ _.

(** The flags the scan loop writes, its local [_last_scan_time], the
    calls made so far and the state of the collaborators. *)
Record state (W : Type) : Type := mk_state {
  _busy : bool;
  _subs_ready : bool;
  _last_scan_time : Z;
  trace : list call;
  world : W
}.
Arguments mk_state {W} _ _ _ _ _.
Arguments _busy {W} _.
Arguments _subs_ready {W} _.
Arguments _last_scan_time {W} _.
Arguments trace {W} _.
Arguments world {W} _.

Section ScanLoop.

Context {W E R : Type}.
Variable env : Env W E R.
Variables PREFIX DEVICE_ID : string.

Definition topic (suffix : string) : string :=
  Main.topic PREFIX DEVICE_ID suffix.

Definition L (X : Type) : Type := state W -> (E + X) * state W.

Definition ret {X} (x : X) : L X := fun s => (inr x, s).

Definition lbind {X Y} (m : L X) (k : X -> L Y) : L Y :=
  fun s =>
    match m s with
    | (inr x, s') => k x s'
    | (inl e, s') => (inl e, s')
    end.

Notation "x <~ m ;; k" := (lbind m (fun x => k))
  (at level 100, m at next level, right associativity).
Notation "m ;;;; k" := (lbind m (fun _ => k))
  (at level 100, right associativity).

(** [try: body except Exception as e: handler(e)] *)
Definition try_except {X} (body : L X) (handler : E -> L X) : L X :=
  fun s =>
    match body s with
    | (inr x, s') => (inr x, s')
    | (inl e, s') => handler e s'
    end.

(** [try: body finally: fin] *)
Definition try_finally {X} (body : L X) (fin : L unit) : L X :=
  fun s =>
    match body s with
    | (r, s') =>
        match fin s' with
        | (inr _, s'') => (r, s'')
        | (inl e, s'') => (inl e, s'')
        end
    end.

Definition set_busy (b : bool) : L unit :=
  fun s => (inr tt, mk_state b (_subs_ready s) (_last_scan_time s) (trace s) (world s)).

Definition set_subs_ready (b : bool) : L unit :=
  fun s => (inr tt, mk_state (_busy s) b (_last_scan_time s) (trace s) (world s)).

Definition set_last_scan_time : L unit :=
  fun s => (inr tt,
            mk_state (_busy s) (_subs_ready s) (ticks_ms env (world s))
              (trace s) (world s)).

(** An awaited call: it is recorded, its outcome comes from the
    collaborators, and [_subs_ready] is what the other tasks that ran
    meanwhile left in it.  A command handler can write [_busy] while the
    loop is not in a scan cycle and sleeps; the model does not say what
    [_busy] is after such a sleep. *)
Definition await {X} (c : call) (op : W -> (E + X) * W) : L X :=
  fun s =>
    let (r, w') := op (world s) in
    (r, mk_state (_busy s)
          (match others env w' with Some b => b | None => _subs_ready s end)
          (_last_scan_time s) (trace s ++ [c]) w').

Definition sleep_ms (ms : Z) : L unit :=
  await (Sleep ms) (fun w => (inr tt, sleep env ms w)).

(** [publish_error(message)] *)
Definition publish_error (message : string) : L unit :=
  try_except
    (await (Publish (topic "error") (Main.PStr message) false 0)
       (publish env (topic "error") (Main.PStr message) false 0))
    (fun _ => ret tt).

(** The [for _ in range(n)] loop that waits for the transport after a
    scan. *)
Fixpoint recover (n : nat) : L unit :=
  match n with
  | O => ret tt
  | S k =>
      fun s =>
        let connected := isconnected env (world s) in
        if connected && _subs_ready s then (inr tt, s)
        else if connected && negb (_subs_ready s) then set_subs_ready true s
        else (sleep_ms 1000 ;;;; recover k) s
  end.

(** One scan cycle of [scan_loop]: from [_busy = True] to the end of the
    [finally] block. *)
Definition scan_cycle : L unit :=
  set_busy true ;;;;
  try_finally
    (try_except
       (set_subs_ready false ;;;;
        results <~ await Scan (bridge_scan env) ;;
        recover 30 ;;;;
        await (Publish (topic "scan/results") (Main.PStr (dumps env results)) false 0)
          (publish env (topic "scan/results") (Main.PStr (dumps env results)) false 0))
       (fun e =>
          try_except (publish_error ("Scan failed: " +:+ str env e))
            (fun _ => ret tt)))
    (set_last_scan_time ;;;; set_busy false).

(** One turn of the [while True] loop of [scan_loop]; [scan_paused] is
    the value of [_scan_paused] when the loop reads it. *)
Definition loop_step (scan_paused : bool) : L unit :=
  fun s =>
    if negb (isconnected env (world s) && _subs_ready s) then sleep_ms 1000 s
    else if scan_paused || _busy s then sleep_ms 1000 s
    else
      let now := ticks_ms env (world s) in
      if (ticks_diff env now (_last_scan_time s) <? 5000)%Z then sleep_ms 500 s
      else scan_cycle s.




(** The conditions under which a turn of the loop starts a scan. *)
Definition may_scan (scan_paused : bool) (s : state W) : bool :=
  isconnected env (world s) && _subs_ready s
  && negb (scan_paused || _busy s)
  && negb (ticks_diff env (ticks_ms env (world s)) (_last_scan_time s) <? 5000)%Z.

(** No other task writes [_subs_ready] while this one waits. *)
Definition undisturbed : Prop := forall w, others env w = None.

(** The calls that can follow a scan that returned [results]: some
    one-second sleeps, the publish of the results, and an error publish
    if that one failed. *)
Definition after_scan (sleeps : nat) (results : R) (failed : option E)
    : list call :=
  repeat (Sleep 1000) sleeps
  ++ [Publish (topic "scan/results") (Main.PStr (dumps env results)) false 0]
  ++ match failed with
     | Some e =>
         [Publish (topic "error") (Main.PStr ("Scan failed: " +:+ str env e))
            false 0]
     | None => []
     end.

End ScanLoop.

End Loop.

Module LoopSample.

Import Loop.

(** A transport that stays connected and a bridge whose scan raises. *)
Definition failing_scan : Env unit string (list string) :=
  mk_env unit string (list string)
    (fun _ => true) (fun _ => None) (fun _ w => w)
    (fun w => (inl "index out of range", w))
    (fun _ _ _ _ w => (inr tt, w))
    (fun _ _ w => (inr tt, w))
    (fun _ => "[]") (fun e => e)
    (fun _ => 10000%Z) Z.sub.

(** A transport that stays connected and a bridge that finds nothing. *)
Definition quiet : Env unit string (list string) :=
  mk_env unit string (list string)
    (fun _ => true) (fun _ => None) (fun _ w => w)
    (fun w => (inr [], w))
    (fun _ _ _ _ w => (inr tt, w))
    (fun _ _ w => (inr tt, w))
    (fun _ => "[]") (fun e => e)
    (fun _ => 10000%Z) Z.sub.

Definition ready : state unit := mk_state false true 0 [] tt.

(** A transport that is down until the loop has slept twice, and on
    which every publish fails; the state of the collaborators is the
    number of sleeps so far. *)
Definition lossy : Env nat string (list string) :=
  mk_env nat string (list string)
    (fun w => Nat.leb 2 w) (fun _ => None) (fun _ w => S w)
    (fun w => (inr ["AA:BB:CC:DD:EE:FF"], w))
    (fun _ _ _ _ w => (inl "ECONNRESET", w))
    (fun _ _ w => (inr tt, w))
    (String.concat ",") (fun e => e)
    (fun _ => 10000%Z) Z.sub.

Definition ready_at (w : nat) : state nat := mk_state false true 0 [] w.

End LoopSample.

Import Uuid BleBridge Main Sample Props.

(* ===================================================================== *)
(** * Strings                                                            *)
(* ===================================================================== *)

Section StringFacts.

Lemma str_app_cons (c : ascii) (a b : string) :
  String c a +:+ b = String c (a +:+ b).
Proof. reflexivity. Qed.

Lemma str_app_nil (b : string) : EmptyString +:+ b = b.
Proof. reflexivity. Qed.

Lemma str_app_length (a b : string) :
  String.length (a +:+ b) = String.length a + String.length b.
Proof.
  induction a as [|c a IH]; [reflexivity |].
  rewrite str_app_cons; simpl. now rewrite IH.
Qed.

Lemma str_app_assoc (a b c : string) : (a +:+ b) +:+ c = a +:+ (b +:+ c).
Proof.
  induction a as [|x a IH]; [reflexivity |].
  rewrite !str_app_cons. f_equal; exact IH.
Qed.

Lemma str_app_empty_r (a : string) : a +:+ EmptyString = a.
Proof.
  induction a as [|x a IH]; [reflexivity |].
  rewrite str_app_cons. f_equal; exact IH.
Qed.

Lemma substring_0_all (s : string) (m : nat) :
  String.length s <= m -> substring 0 m s = s.
Proof.
  revert m; induction s as [|c s IH]; intros [|m] Hm; simpl in *;
    try reflexivity; try lia.
  rewrite IH by lia. reflexivity.
Qed.

Lemma substring_0_app (a b : string) :
  substring 0 (String.length a) (a +:+ b) = a.
Proof.
  induction a as [|c a IH]; [now destruct b |].
  rewrite str_app_cons; simpl. now rewrite IH.
Qed.

Lemma substring_skip_app (p s : string) (m : nat) :
  substring (String.length p) m (p +:+ s) = substring 0 m s.
Proof.
  induction p as [|c p IH]; [reflexivity |].
  rewrite str_app_cons; simpl. exact IH.
Qed.

Lemma prefix_app (p s : string) : String.prefix p (p +:+ s) = true.
Proof.
  induction p as [|c p IH]; [now destruct s |].
  rewrite str_app_cons; simpl.
  destruct (ascii_dec c c); [exact IH | congruence].
Qed.

Lemma prefix_cons_ne (a b : ascii) (p s : string) :
  a <> b -> String.prefix (String a p) (String b s) = false.
Proof.
  intros Hne. change (String.prefix (String a p) (String b s))
    with (if ascii_dec a b then String.prefix p s else false).
  now destruct (ascii_dec a b).
Qed.

Lemma prefix_app_cancel (a p s : string) :
  String.prefix (a +:+ p) (a +:+ s) = String.prefix p s.
Proof.
  induction a as [|c a IH]; [reflexivity |].
  rewrite !str_app_cons; simpl.
  destruct (ascii_dec c c); [exact IH | congruence].
Qed.

Lemma prefix_split (p t : string) :
  String.prefix p t = true -> exists r, t = p +:+ r.
Proof.
  revert t; induction p as [|c p IH]; intros t H.
  - exists t; reflexivity.
  - destruct t as [|d t]; simpl in H; [discriminate |].
    destruct (ascii_dec c d) as [->|]; [| discriminate].
    destruct (IH _ H) as [r ->]. exists r; reflexivity.
Qed.

Lemma str_app_inv_head (a x y : string) : a +:+ x = a +:+ y -> x = y.
Proof.
  induction a as [|c a IH]; intros H; [exact H |].
  rewrite !str_app_cons in H. injection H; auto.
Qed.

(** [s[len(p):]] of [p + r] is [r]. *)
Lemma str_from_app (p r : string) :
  Py.str_from (p +:+ r) (Z.of_nat (String.length p)) = r.
Proof.
  unfold Py.str_from, Py.str_slice, Py.slice_bound.
  rewrite str_app_length.
  destruct (Z.ltb_spec (Z.of_nat (String.length p)) 0); [lia |].
  destruct (Z.ltb_spec (Z.of_nat (String.length p + String.length r)) 0); [lia |].
  rewrite Z.min_l by lia. rewrite Z.min_l by lia.
  rewrite Nat2Z.id.
  replace (Z.to_nat _) with (String.length r) by lia.
  rewrite substring_skip_app. apply substring_0_all. lia.
Qed.

(** [(p + body + q)[len(p):-len(q)]] is [body], for a non-empty [q]. *)
Lemma str_slice_mid (p body q : string) :
  0 < String.length q ->
  Py.str_slice (p +:+ body +:+ q)
    (Z.of_nat (String.length p)) (- Z.of_nat (String.length q)) = body.
Proof.
  intros Hq. unfold Py.str_slice, Py.slice_bound.
  rewrite !str_app_length.
  destruct (Z.ltb_spec (Z.of_nat (String.length p)) 0); [lia |].
  destruct (Z.ltb_spec (- Z.of_nat (String.length q)) 0); [| lia].
  rewrite Z.min_l by lia. rewrite Z.max_l by lia.
  rewrite Nat2Z.id.
  replace (Z.to_nat _) with (String.length body) by lia.
  rewrite substring_skip_app. apply substring_0_app.
Qed.

Lemma endswith_app (a q : string) : Py.endswith q (a +:+ q) = true.
Proof.
  unfold Py.endswith. rewrite str_app_length.
  apply andb_true_intro; split; [apply Nat.leb_le; lia |].
  replace (String.length a + String.length q - String.length q)
    with (String.length a) by lia.
  rewrite str_from_app. apply String.eqb_refl.
Qed.

Lemma lower_app (a b : string) : Py.lower (a +:+ b) = Py.lower a +:+ Py.lower b.
Proof.
  induction a as [|c a IH]; [reflexivity |].
  rewrite str_app_cons; simpl. rewrite str_app_cons. now rewrite IH.
Qed.

Lemma replace1_app (old : ascii) (new a b : string) :
  Py.replace1 old new (a +:+ b)
  = Py.replace1 old new a +:+ Py.replace1 old new b.
Proof.
  induction a as [|c a IH]; [reflexivity |].
  rewrite str_app_cons; simpl.
  destruct (Ascii.eqb c old); rewrite IH;
    [now rewrite str_app_assoc | reflexivity].
Qed.

Lemma contains_app_r (n a : string) : Py.contains n (a +:+ n) = true.
Proof.
  induction a as [|c a IH].
  - rewrite str_app_nil.
    assert (H : String.prefix n n = true).
    { rewrite <- (str_app_empty_r n) at 2. apply prefix_app. }
    destruct n; simpl in *; [reflexivity | now rewrite H].
  - rewrite str_app_cons; simpl. rewrite IH. apply orb_true_r.
Qed.

End StringFacts.

(* ===================================================================== *)
(** * UUID normalisation                                                 *)
(* ===================================================================== *)

Section UuidFacts.

Lemma all_chars_app (p : ascii -> bool) (a b : string) :
  all_chars p (a +:+ b) = all_chars p a && all_chars p b.
Proof.
  induction a as [|c a IH]; [reflexivity |].
  rewrite str_app_cons; simpl. now rewrite IH, andb_assoc.
Qed.

Lemma hexdigit_lower (d : N) : is_lower_hex (Py.hexdigit false d) = true.
Proof.
  unfold Py.hexdigit.
  assert (Hlt : (d mod 16 < 16)%N) by (apply N.mod_lt; discriminate).
  rewrite <- (N2Nat.id (d mod 16)) in *.
  set (k := N.to_nat (d mod 16)) in *.
  assert (Hk : k < 16) by lia. clear Hlt.
  do 16 (destruct k as [|k]; [reflexivity |]). lia.
Qed.

Lemma lower_hex_char (c : ascii) :
  is_lower_hex c = true ->
  Py.lower_char c = c /\ Ascii.eqb c "-" = false.
Proof.
  destruct c as [[|] [|] [|] [|] [|] [|] [|] [|]]; vm_compute;
    intros H; try discriminate H; split; reflexivity.
Qed.

Lemma hex_char_lower (c : ascii) :
  is_hex c = true ->
  is_lower_hex (Py.lower_char c) = true
  /\ Ascii.eqb (Py.lower_char c) "-" = false
  /\ c <> "U"%char.
Proof.
  destruct c as [[|] [|] [|] [|] [|] [|] [|] [|]]; vm_compute;
    intros H; try discriminate H; repeat split; discriminate.
Qed.

Lemma lower_hex_fixed (h : string) :
  all_chars is_lower_hex h = true ->
  Py.lower h = h /\ Py.replace1 "-" EmptyString h = h.
Proof.
  induction h as [|c h IH]; simpl; [auto |].
  intros [Hc Hh]%andb_prop.
  destruct (lower_hex_char c Hc) as [-> ->].
  destruct (IH Hh) as [-> ->]. auto.
Qed.

Lemma hex2_lower (n : N) : all_chars is_lower_hex (Py.hex2 false n) = true.
Proof. unfold Py.hex2; simpl. now rewrite !hexdigit_lower. Qed.

Lemma bytes_hex_cons (b : byte) (bs : list byte) :
  Py.bytes_hex (b :: bs) = Py.hex2 false (Byte.to_N b) +:+ Py.bytes_hex bs.
Proof. reflexivity. Qed.

Lemma bytes_hex_lower (bs : list byte) :
  all_chars is_lower_hex (Py.bytes_hex bs) = true.
Proof.
  induction bs as [|b bs IH]; [reflexivity |].
  now rewrite bytes_hex_cons, all_chars_app, hex2_lower, IH.
Qed.

Lemma bytes_hex_length (bs : list byte) :
  String.length (Py.bytes_hex bs) = 2 * length bs.
Proof.
  induction bs as [|b bs IH]; [reflexivity |].
  rewrite bytes_hex_cons, str_app_length, IH. simpl. lia.
Qed.

Lemma bytes_hex_app (a b : list byte) :
  Py.bytes_hex (a ++ b) = Py.bytes_hex a +:+ Py.bytes_hex b.
Proof.
  induction a as [|x a IH]; [reflexivity |].
  rewrite <- app_comm_cons, !bytes_hex_cons. now rewrite IH, str_app_assoc.
Qed.

(** A 16-bit UUID: four zeros, its four digits, the base suffix. *)
Lemma norm_uuid16 (v : N) :
  _norm_uuid (UUID16 v)
  = "0000" +:+ (Py.hex2 false (v / 256) +:+ Py.hex2 false v) +:+ _BT_BASE_SUFFIX.
Proof.
  unfold _norm_uuid, py_str.
  set (body := Py.hex2 false (v / 256) +:+ Py.hex2 false v).
  replace ("UUID(0x" +:+ Py.hex2 false (v / 256) +:+ Py.hex2 false v +:+ ")")
    with ("UUID(0x" +:+ body +:+ ")")
    by (unfold body; now rewrite !str_app_assoc).
  unfold Py.startswith. rewrite prefix_app.
  rewrite <- (str_app_assoc "UUID(0x" body ")"), endswith_app.
  rewrite (str_app_assoc "UUID(0x" body ")").
  pose proof (str_slice_mid "UUID(0x" body ")" ltac:(simpl; lia)) as Hmid.
  change (Z.of_nat (String.length "UUID(0x")) with 7%Z in Hmid.
  change (- Z.of_nat (String.length ")"))%Z with (-1)%Z in Hmid.
  rewrite Hmid.
  simpl andb. cbv iota.
  assert (Hb : all_chars is_lower_hex body = true)
    by (unfold body; now rewrite all_chars_app, !hex2_lower).
  now destruct (lower_hex_fixed body Hb) as [-> _].
Qed.

(** A 128-bit UUID: the hexadecimal digits of its bytes. *)
Lemma norm_uuid128 (bs : list byte) :
  _norm_uuid (UUID128 bs) = Py.bytes_hex bs.
Proof.
  unfold _norm_uuid, py_str.
  set (h1 := Py.bytes_hex (take 4 bs)).
  set (h2 := Py.bytes_hex (take 2 (drop 4 bs))).
  set (h3 := Py.bytes_hex (take 2 (drop 6 bs))).
  set (h4 := Py.bytes_hex (take 2 (drop 8 bs))).
  set (h5 := Py.bytes_hex (drop 10 bs)).
  set (body := h1 +:+ "-" +:+ h2 +:+ "-" +:+ h3 +:+ "-" +:+ h4 +:+ "-" +:+ h5).
  replace ("UUID('" +:+ h1 +:+ "-" +:+ h2 +:+ "-" +:+ h3 +:+ "-" +:+ h4
             +:+ "-" +:+ h5 +:+ "')")
    with ("UUID('" +:+ body +:+ "')")
    by (unfold body; now rewrite !str_app_assoc).
  replace (Py.startswith "UUID(0x" ("UUID('" +:+ body +:+ "')")) with false
    by reflexivity.
  unfold Py.startswith. rewrite prefix_app.
  rewrite <- (str_app_assoc "UUID('" body "')"), endswith_app.
  rewrite (str_app_assoc "UUID('" body "')").
  pose proof (str_slice_mid "UUID('" body "')" ltac:(simpl; lia)) as Hmid.
  change (Z.of_nat (String.length "UUID('")) with 6%Z in Hmid.
  change (- Z.of_nat (String.length "')"))%Z with (-2)%Z in Hmid.
  rewrite Hmid.
  simpl andb. cbv iota.
  unfold body. rewrite !replace1_app.
  assert (Hd : Py.replace1 "-" EmptyString "-" = EmptyString) by reflexivity. rewrite !Hd.
  pose proof (bytes_hex_lower (take 4 bs)) as H1.
  pose proof (bytes_hex_lower (take 2 (drop 4 bs))) as H2.
  pose proof (bytes_hex_lower (take 2 (drop 6 bs))) as H3.
  pose proof (bytes_hex_lower (take 2 (drop 8 bs))) as H4.
  pose proof (bytes_hex_lower (drop 10 bs)) as H5.
  fold h1 in H1; fold h2 in H2; fold h3 in H3; fold h4 in H4; fold h5 in H5.
  destruct (lower_hex_fixed _ H1) as [L1 ->].
  destruct (lower_hex_fixed _ H2) as [L2 ->].
  destruct (lower_hex_fixed _ H3) as [L3 ->].
  destruct (lower_hex_fixed _ H4) as [L4 ->].
  destruct (lower_hex_fixed _ H5) as [L5 ->].
  rewrite !str_app_nil, !lower_app, L1, L2, L3, L4, L5.
  unfold h1, h2, h3, h4, h5. rewrite <- !bytes_hex_app. f_equal.
  replace (drop 10 bs) with (drop 2 (drop 8 bs)) by (rewrite drop_drop; f_equal).
  rewrite take_drop.
  replace (drop 8 bs) with (drop 2 (drop 6 bs)) by (rewrite drop_drop; f_equal).
  rewrite take_drop.
  replace (drop 6 bs) with (drop 2 (drop 4 bs)) by (rewrite drop_drop; f_equal).
  rewrite take_drop. apply take_drop.
Qed.

(** The text of a UUID: lowercased, dashes removed. *)
Lemma norm_plain_text (s : string) :
  all_chars (fun c => is_hex c || Ascii.eqb c "-") s = true ->
  _norm_uuid (PlainStr s) = Py.replace1 "-" EmptyString (Py.lower s).
Proof.
  intros Hs. unfold _norm_uuid, py_str, Py.startswith.
  destruct s as [|c r]; [reflexivity |].
  simpl in Hs. apply andb_prop in Hs as [Hc _].
  assert (Hne : c <> "U"%char).
  { apply orb_prop in Hc as [Hc | Hc].
    - now apply hex_char_lower in Hc.
    - apply Ascii.eqb_eq in Hc. subst c. discriminate. }
  rewrite !(prefix_cons_ne "U" c) by congruence. reflexivity.
Qed.

Lemma plain_text_hex (s : string) :
  all_chars (fun c => is_hex c || Ascii.eqb c "-") s = true ->
  all_chars is_lower_hex (Py.replace1 "-" EmptyString (Py.lower s)) = true
  /\ String.length (Py.replace1 "-" EmptyString (Py.lower s)) = count_chars is_hex s.
Proof.
  induction s as [|c s IH]; [auto |].
  simpl. intros [Hc Hs]%andb_prop. destruct (IH Hs) as [IHa IHl].
  destruct (is_hex c) eqn:Hx.
  - destruct (hex_char_lower c Hx) as (Hl & -> & _).
    simpl. rewrite Hl, IHa, IHl. auto.
  - simpl in Hc. apply Ascii.eqb_eq in Hc. subst c.
    simpl. rewrite str_app_nil. auto.
Qed.

End UuidFacts.

(** C1.  Normalising the 16-bit UUID 0x2A9D gives
    [00002a9d00001000800000805f9b34fb], normalising the text
    [12345678-1234-1234-1234-123456789abc] gives
    [12345678123412341234123456789abc], and for every valid 16-bit or
    128-bit UUID the result is a string of 32 lowercase hexadecimal
    characters. *)
Theorem norm_uuid_wire_contract (u : uuid_arg) (Hvalid : valid_uuid u = true) :
  _norm_uuid (UUID16 0x2A9D) = "00002a9d00001000800000805f9b34fb"
  /\ _norm_uuid (PlainStr "12345678-1234-1234-1234-123456789abc")
     = "12345678123412341234123456789abc"
  /\ is_hex32 (_norm_uuid u) = true.
Proof.
  split; [reflexivity |]. split; [reflexivity |].
  unfold is_hex32. apply andb_true_intro.
  destruct u as [v | bs | s]; simpl in Hvalid.
  - rewrite norm_uuid16. split.
    + reflexivity.
    + rewrite !all_chars_app, !hex2_lower. reflexivity.
  - rewrite norm_uuid128. apply Nat.eqb_eq in Hvalid. split.
    + rewrite bytes_hex_length, Hvalid. reflexivity.
    + apply bytes_hex_lower.
  - apply andb_prop in Hvalid as [Hall Hcount].
    rewrite (norm_plain_text s Hall).
    destruct (plain_text_hex s Hall) as [Ha Hl]. split.
    + now rewrite Hl.
    + exact Ha.
Qed.

Lemma norm_uuid_wire_contract_witness :
  valid_uuid
    (UUID128 [x12; x34; x56; x78; x12; x34; x12; x34;
              x12; x34; x12; x34; x56; x78; x9a; xbc]) = true
  /\ is_hex32
       (_norm_uuid
          (UUID128 [x12; x34; x56; x78; x12; x34; x12; x34;
                    x12; x34; x12; x34; x56; x78; x9a; xbc])) = true.
Proof.
  split; [reflexivity |].
  apply (norm_uuid_wire_contract
           (UUID128 [x12; x34; x56; x78; x12; x34; x12; x34;
                     x12; x34; x12; x34; x56; x78; x9a; xbc])).
  reflexivity.
Defined.

(* ===================================================================== *)
(** * The advertisement parser                                           *)
(* ===================================================================== *)

Section ParserFacts.

Variable utf8_decode : list byte -> option string.

Lemma ad_structure_fuel length ty p st :
  ad_structure utf8_decode length ty p st <> OutOfFuel.
Proof.
  unfold ad_structure, getitem, bind.
  repeat match goal with
         | |- context [if ?b then _ else _] => destruct b
         | |- context [match ?o with Some _ => _ | None => _ end] => destruct o
         end; discriminate.
Qed.

(** A structure raises only in the manufacturer branch, and only when
    its payload has fewer than two bytes. *)
Lemma ad_structure_raises length ty p st e :
  ad_structure utf8_decode length ty p st = Raise e ->
  ty = 0xFF%N /\ (3 <= length)%N /\ List.length p < 2.
Proof.
  unfold ad_structure, getitem, bind.
  destruct ((ty =? 9)%N || (ty =? 8)%N);
    [destruct (utf8_decode p); discriminate |].
  destruct ((ty =? 3)%N || (ty =? 2)%N); [discriminate |].
  destruct ((ty =? 255)%N && (3 <=? length)%N) eqn:Hc; [| discriminate].
  apply andb_prop in Hc as [Hty Hlen].
  apply N.eqb_eq in Hty. apply N.leb_le in Hlen.
  destruct p as [|b0 [|b1 p]]; simpl; intros H;
    try discriminate H; repeat split; auto; simpl; lia.
Qed.

(** What one structure does to the manufacturer fields. *)
Lemma ad_structure_mfr length ty p st st' :
  ad_structure utf8_decode length ty p st = Ok st' ->
  (f_mfr_id st' = f_mfr_id st /\ f_mfr_data st' = f_mfr_data st)
  \/ (ty = 0xFF%N /\ (3 <= length)%N /\
      exists b0 b1,
        p !! 0 = Some b0 /\ p !! 1 = Some b1
        /\ f_mfr_id st' = Some (N.lor (Byte.to_N b0) (N.shiftl (Byte.to_N b1) 8))
        /\ f_mfr_data st' = Some (Py.bytes_hex (drop 2 p))).
Proof.
  unfold ad_structure, getitem, bind.
  destruct ((ty =? 9)%N || (ty =? 8)%N).
  { destruct (utf8_decode p); intros [= <-]; left; auto. }
  destruct ((ty =? 3)%N || (ty =? 2)%N).
  { intros [= <-]; left; auto. }
  destruct ((ty =? 255)%N && (3 <=? length)%N) eqn:Hc.
  2:{ intros [= <-]; left; auto. }
  apply andb_prop in Hc as [Hty Hlen].
  apply N.eqb_eq in Hty. apply N.leb_le in Hlen.
  destruct p as [|b0 [|b1 p]]; simpl; intros H; try discriminate H.
  injection H as <-. right. repeat split; auto.
  exists b0, b1. simpl. auto.
Qed.

(** A manufacturer structure whose length byte is below 3 is skipped. *)
Lemma ad_structure_short length p st :
  (length < 3)%N -> ad_structure utf8_decode length 0xFF p st = Ok st.
Proof.
  intros Hlt. unfold ad_structure. simpl.
  destruct (N.leb_spec 3 length); [lia | reflexivity].
Qed.

(** The loop never uses up its fuel when it starts with more fuel than
    there are bytes left. *)
Lemma ad_loop_fuel fuel raw i st :
  length raw - i < fuel -> ad_loop utf8_decode fuel raw i st <> OutOfFuel.
Proof.
  revert i st; induction fuel as [|fuel IH]; intros i st Hf; [lia |].
  simpl. destruct (raw !! i) as [lenb|] eqn:Hi; [| discriminate].
  apply lookup_lt_Some in Hi.
  destruct (Byte.to_N lenb =? 0)%N; [discriminate |].
  destruct (raw !! (i + 1)) as [tyb|]; [| discriminate].
  destruct (ad_structure utf8_decode _ _ _ st) as [st'| e |] eqn:Hs; simpl.
  - apply IH. lia.
  - discriminate.
  - now apply ad_structure_fuel in Hs.
Qed.

(** The parser returns fields or raises, for every payload. *)
Lemma parse_ad_terminates raw :
  (exists f, parse_ad utf8_decode raw = Ok f)
  \/ (exists e, parse_ad utf8_decode raw = Raise e).
Proof.
  pose proof (ad_loop_fuel (S (length raw)) raw 0 init_fields ltac:(lia)) as H.
  unfold parse_ad.
  destruct (ad_loop utf8_decode (S (length raw)) raw 0 init_fields) as [f|e|];
    [left; eauto | right; eauto | congruence].
Qed.

Lemma mfr_from_same raw st st' :
  f_mfr_id st' = f_mfr_id st -> f_mfr_data st' = f_mfr_data st ->
  no_mfr st \/ mfr_from raw st -> no_mfr st' \/ mfr_from raw st'.
Proof.
  intros Hi Hd [[H1 H2] | H].
  - left. split; congruence.
  - right. destruct H as (i & lenb & tyb & b0 & b1 & ? & ? & ? & ? & ? & ? & ? & ?).
    exists i, lenb, tyb, b0, b1. repeat split; try assumption; congruence.
Qed.

(** The manufacturer fields are either unassigned or those of a
    manufacturer structure with a length byte of at least 3. *)
Lemma ad_loop_mfr fuel raw i st f :
  ad_loop utf8_decode fuel raw i st = Ok f ->
  no_mfr st \/ mfr_from raw st -> no_mfr f \/ mfr_from raw f.
Proof.
  revert i st; induction fuel as [|fuel IH]; intros i st; [discriminate |].
  simpl. destruct (raw !! i) as [lenb|] eqn:Hi; [| now intros [= <-]].
  destruct (Byte.to_N lenb =? 0)%N; [now intros [= <-] |].
  destruct (raw !! (i + 1)) as [tyb|] eqn:Hty; [| now intros [= <-]].
  destruct (ad_structure utf8_decode _ _ _ st) as [st'| e |] eqn:Hs; simpl;
    try discriminate.
  intros Hloop Hst. apply (IH _ _ Hloop).
  destruct (ad_structure_mfr _ _ _ _ _ Hs) as [[E1 E2] | (Ety & Hlen & b0 & b1 & H)].
  - eapply mfr_from_same; eauto.
  - right. exists i, lenb, tyb, b0, b1. repeat split; try tauto.
Qed.

End ParserFacts.

(** C2.  A payload whose manufacturer structure is cut short makes the
    parse loop raise [IndexError]: the length byte 3 passes the
    [length >= 3] test, the payload slice holds one byte, and
    [ad_payload[1]] is out of range. *)
Theorem parse_truncated_mfr_raises (utf8_decode : list byte -> option string) :
  parse_ad utf8_decode [x03; xff; x01] = Raise IndexError.
Proof. reflexivity. Qed.

(** C3, the claim as stated fails: a manufacturer structure with two
    payload bytes (fewer than three) has its id recorded, with empty
    data. *)
Lemma mfr_two_payload_bytes_recorded :
  parse_ad ascii_decode [x03; xff; x01; x00]
  = Ok (mk_fields EmptyString [] (Some 1%N) (Some EmptyString)).
Proof. reflexivity. Qed.

(** C3, amended.  The parser records a manufacturer id and manufacturer
    data only from a structure of type 0xFF whose length byte is at least
    3, that is, with at least two payload bytes after the type byte: the
    id is the first two payload bytes, little-endian, and the data is the
    hex of the rest, possibly empty.  A structure of type 0xFF whose
    length byte is below 3 records nothing. *)
Theorem mfr_recorded_from_length_3 (utf8_decode : list byte -> option string)
    (raw : list byte) (f : ad_fields)
    (Hparse : parse_ad utf8_decode raw = Ok f)
    (Hrec : f_mfr_id f <> None \/ f_mfr_data f <> None) :
  mfr_from raw f
  /\ (forall length p st,
        (length < 3)%N -> ad_structure utf8_decode length 0xFF p st = Ok st).
Proof.
  split.
  - destruct (ad_loop_mfr utf8_decode _ _ _ _ _ Hparse) as [[H1 H2] | H].
    + left; split; reflexivity.
    + destruct Hrec; congruence.
    + exact H.
  - intros length p st. apply ad_structure_short.
Qed.

Lemma mfr_recorded_from_length_3_witness :
  parse_ad ascii_decode [x03; xff; x01; x00]
  = Ok (mk_fields EmptyString [] (Some 1%N) (Some EmptyString))
  /\ mfr_from [x03; xff; x01; x00] (mk_fields EmptyString [] (Some 1%N) (Some EmptyString)).
Proof.
  assert (H : parse_ad ascii_decode [x03; xff; x01; x00]
              = Ok (mk_fields EmptyString [] (Some 1%N) (Some EmptyString))) by reflexivity.
  split; [exact H |].
  apply (mfr_recorded_from_length_3 ascii_decode [x03; xff; x01; x00]
           (mk_fields EmptyString [] (Some 1%N) (Some EmptyString)) H).
  left. discriminate.
Defined.

(* ===================================================================== *)
(** * Deduplication, noise filter, buffer cap                            *)
(* ===================================================================== *)

Section ScanFacts.

Lemma truthy_spec (s : string) : Py.truthy s = true <-> s <> EmptyString.
Proof.
  unfold Py.truthy. rewrite negb_true_iff. apply String.eqb_neq.
Qed.

Lemma truthy_opt_spec (o : option string) :
  Py.truthy_opt o = true <-> exists d, o = Some d /\ d <> EmptyString.
Proof.
  destruct o as [d|]; simpl.
  - rewrite truthy_spec. split; [eauto | now intros (? & [= <-] & ?)].
  - split; [discriminate | now intros (? & ? & ?)].
Qed.

Lemma keep_spec (e : entry) :
  keep e = true <-> name e <> EmptyString \/ has_mfr_data e.
Proof.
  unfold keep, has_mfr_data.
  now rewrite orb_true_iff, truthy_spec, truthy_opt_spec.
Qed.

Lemma merge_rssi old r f : rssi (merge old r f) = Z.max (rssi old) r.
Proof.
  unfold merge.
  destruct (Z.gtb_spec r (rssi old));
    repeat match goal with |- context [if ?b then _ else _] => destruct b end;
    simpl; lia.
Qed.

Lemma merge_name old r f :
  name (merge old r f)
  = if Py.truthy (f_name f) && negb (Py.truthy (name old))
    then f_name f else name old.
Proof.
  unfold merge. destruct (r >? rssi old)%Z; simpl;
    destruct (Py.truthy (f_name f) && negb (Py.truthy (name old))); simpl;
    match goal with |- context [if ?b then _ else _] => destruct b end;
    reflexivity.
Qed.

Lemma merge_mfr old r f :
  (manufacturer_id (merge old r f), manufacturer_data (merge old r f))
  = if Py.truthy_opt (f_mfr_data f)
       && negb (Py.truthy_opt (manufacturer_data old))
    then (f_mfr_id f, f_mfr_data f)
    else (manufacturer_id old, manufacturer_data old).
Proof.
  unfold merge. destruct (r >? rssi old)%Z; simpl;
    destruct (Py.truthy (f_name f) && negb (Py.truthy (name old))); simpl;
    destruct (Py.truthy_opt (f_mfr_data f)
              && negb (Py.truthy_opt (manufacturer_data old)));
    reflexivity.
Qed.

Lemma merge_rest old r f :
  address (merge old r f) = address old
  /\ services (merge old r f) = services old
  /\ addr_type (merge old r f) = addr_type old.
Proof.
  unfold merge.
  repeat match goal with |- context [if ?b then _ else _] => destruct b end;
    simpl; auto.
Qed.

Lemma results_of_spec (seen : gmap string entry) (e : entry) :
  e ∈ results_of seen
  <-> (exists mac, seen !! mac = Some e) /\ (name e <> EmptyString \/ has_mfr_data e).
Proof.
  unfold results_of.
  rewrite list_elem_of_In, filter_In, <- list_elem_of_In, keep_spec.
  rewrite list_elem_of_fmap. split.
  - intros [([mac e'] & -> & Hin) Hk]. apply elem_of_map_to_list in Hin.
    split; [exists mac; exact Hin | exact Hk].
  - intros [[mac Hin] Hk]. split; [| exact Hk].
    exists (mac, e). split; [reflexivity | now apply elem_of_map_to_list].
Qed.

(** [_irq] keeps the buffer within the cap. *)
Lemma irq_cap event data raw_results :
  length raw_results <= _MAX_SCAN_ENTRIES ->
  length (_irq event data raw_results) <= _MAX_SCAN_ENTRIES.
Proof.
  intros H. unfold _irq. destruct (event =? 5)%Z; [| exact H].
  destruct (Nat.ltb_spec (length raw_results) _MAX_SCAN_ENTRIES); [| exact H].
  rewrite length_app. simpl. lia.
Qed.

Lemma collect_take events acc :
  length acc <= _MAX_SCAN_ENTRIES ->
  collect events acc
  = (acc ++ take (_MAX_SCAN_ENTRIES - length acc) (advertisements events))%list.
Proof.
  revert acc; induction events as [|[event data] events IH]; intros acc Hacc.
  - unfold advertisements. simpl. rewrite take_nil. now rewrite app_nil_r.
  - unfold collect in *. simpl fold_left.
    rewrite (IH _ (irq_cap event data acc Hacc)).
    unfold _irq, advertisements. simpl List.filter.
    destruct (event =? 5)%Z; [| reflexivity].
    destruct (Nat.ltb_spec (length acc) _MAX_SCAN_ENTRIES) as [Hlt | Hge].
    + rewrite length_app. simpl length.
      destruct (_MAX_SCAN_ENTRIES - length acc) as [|k] eqn:Hk; [lia |].
      replace (_MAX_SCAN_ENTRIES - (length acc + 1)) with k by lia.
      simpl. now rewrite <- app_assoc.
    + replace (_MAX_SCAN_ENTRIES - length acc) with 0 by lia.
      reflexivity.
Qed.

End ScanFacts.

(** C4, the claim as stated fails: a record that already has a
    manufacturer id and a [manufacturer_data] key (with the empty string,
    from a two-byte manufacturer structure) takes over the manufacturer
    id and data of a later advertisement. *)
Lemma mfr_adopted_over_empty_data :
  let mac := "AA:BB:CC:DD:EE:FF" in
  let old := mk_entry mac EmptyString (-80) [] 0 (Some 1%N) (Some EmptyString) in
  let new := mk_entry mac EmptyString (-60) [] 0 (Some 2%N) (Some "beef") in
  post_process ascii_decode
    (collect [adv (-80) [x03; xff; x01; x00]] []) ∅
  = Ok {[ mac := old ]}
  /\ manufacturer_data old <> None
  /\ post_process ascii_decode
       (collect [adv (-80) [x03; xff; x01; x00];
                 adv (-60) [x05; xff; x02; x00; xbe; xef]] []) ∅
     = Ok {[ mac := new ]}
  /\ manufacturer_id new <> manufacturer_id old.
Proof.
  repeat split; try discriminate; vm_compute; reflexivity.
Qed.

(** C4, amended.  When an advertisement arrives for an address that is
    already in [seen], the merged record keeps the higher of the two RSSI
    values; it takes the later name exactly when the existing name is
    empty and the later one is not; it takes the later manufacturer id and
    data exactly when the existing manufacturer data is absent or the
    empty string and the later one is a non-empty string; the other fields
    and the other records stay as they are.  The advertisements
    (rssi -80, no name, no manufacturer data) and (rssi -60, "Scale1",
    manufacturer (0x01, "beef")) of one address give one result with
    rssi -60, name "Scale1", manufacturer id 0x01 and data "beef". *)
Theorem dedup_merge_rule (seen : gmap string entry) (mac : string)
    (old : entry) (addr_type' rssi' : Z) (f : ad_fields)
    (Hseen : seen !! mac = Some old) :
  (exists merged,
      dedup seen mac addr_type' rssi' f !! mac = Some merged
      /\ rssi merged = Z.max (rssi old) rssi'
      /\ name merged
         = (if Py.truthy (f_name f) && negb (Py.truthy (name old))
            then f_name f else name old)
      /\ (manufacturer_id merged, manufacturer_data merged)
         = (if Py.truthy_opt (f_mfr_data f)
               && negb (Py.truthy_opt (manufacturer_data old))
            then (f_mfr_id f, f_mfr_data f)
            else (manufacturer_id old, manufacturer_data old))
      /\ address merged = address old
      /\ services merged = services old
      /\ addr_type merged = addr_type old)
  /\ (forall mac', mac' <> mac ->
        dedup seen mac addr_type' rssi' f !! mac' = seen !! mac')
  /\ results_of
       (dedup (dedup ∅ "AA" 0 (-80) (mk_fields EmptyString [] None None))
          "AA" 0 (-60) (mk_fields "Scale1" [] (Some 1%N) (Some "beef")))
     = [mk_entry "AA" "Scale1" (-60) [] 0 (Some 1%N) (Some "beef")].
Proof.
  unfold dedup at 1 2. rewrite Hseen. repeat split.
  - exists (merge old rssi' f). rewrite lookup_insert_eq.
    pose proof (merge_rest old rssi' f) as (? & ? & ?).
    repeat split; auto using merge_rssi, merge_name, merge_mfr.
  - intros mac' Hne. now rewrite lookup_insert_ne.
Qed.

Lemma dedup_merge_rule_witness :
  let seen : gmap string entry :=
    {[ "AA" := mk_entry "AA" EmptyString (-80) [] 0 None None ]} in
  seen !! "AA" = Some (mk_entry "AA" EmptyString (-80) [] 0 None None)
  /\ exists merged,
       dedup seen "AA" 0 (-60) (mk_fields "Scale1" [] (Some 1%N) (Some "beef"))
         !! "AA" = Some merged
       /\ rssi merged = (-60)%Z.
Proof.
  intros seen.
  assert (H : seen !! "AA" = Some (mk_entry "AA" EmptyString (-80) [] 0 None None))
    by reflexivity.
  split; [exact H |].
  destruct (dedup_merge_rule seen "AA" _ 0 (-60)
              (mk_fields "Scale1" [] (Some 1%N) (Some "beef")) H)
    as [(merged & Hm & Hr & _) _].
  exists merged. split; [exact Hm | exact Hr].
Defined.

(** C5, the claim as stated fails: a record whose [manufacturer_data] key
    is present, with the empty string, and whose name is empty is left out
    of the results. *)
Lemma empty_mfr_data_filtered :
  let mac := "AA:BB:CC:DD:EE:FF" in
  let e := mk_entry mac EmptyString (-70) [] 0 (Some 1%N) (Some EmptyString) in
  post_process ascii_decode
    (collect [adv (-70) [x03; xff; x01; x00]] []) ∅
  = Ok {[ mac := e ]}
  /\ manufacturer_data e <> None
  /\ scan ascii_decode [adv (-70) [x03; xff; x01; x00]] off
     = (Ok [], mk_radio false false).
Proof.
  repeat split; try discriminate; vm_compute; reflexivity.
Qed.

(** C5, amended.  The results of a scan cycle are the deduplicated records
    whose name is non-empty or whose manufacturer data is a non-empty
    string; a record with an empty name whose manufacturer data is absent
    or the empty string is left out, whatever services it carries. *)
Theorem noise_filter_rule (utf8_decode : list byte -> option string)
    (events : list (Z * irq_data)) (hw hw' : radio) (rs : list entry)
    (Hscan : scan utf8_decode events hw = (Ok rs, hw')) :
  exists seen,
    post_process utf8_decode (collect events []) ∅ = Ok seen
    /\ (forall e,
          e ∈ rs <->
          (exists mac, seen !! mac = Some e)
          /\ (name e <> EmptyString \/ has_mfr_data e))
    /\ (forall e,
          name e = EmptyString ->
          manufacturer_data e = None \/ manufacturer_data e = Some EmptyString ->
          e ∉ rs).
Proof.
  unfold scan in Hscan.
  destruct (post_process utf8_decode (collect events []) ∅) as [seen| |];
    try discriminate.
  injection Hscan as <- _. exists seen. split; [reflexivity |].
  split; [apply results_of_spec |].
  intros e Hn Hd Hin. apply results_of_spec in Hin as [_ [Hk | (d & Hk & Hne)]].
  - contradiction.
  - destruct Hd as [Hd | Hd]; congruence.
Qed.

Lemma noise_filter_rule_witness :
  scan ascii_decode
    [adv (-70) [x03; x03; x0d; x18];
     adv (-60) [x07; x09; x53; x63; x61; x6c; x65; x31]] off
  = (Ok [mk_entry "AA:BB:CC:DD:EE:FF" "Scale1" (-60) ["180d"] 0 None None],
     mk_radio false false)
  /\ exists seen,
       post_process ascii_decode
         (collect [adv (-70) [x03; x03; x0d; x18];
                   adv (-60) [x07; x09; x53; x63; x61; x6c; x65; x31]] []) ∅
       = Ok seen.
Proof.
  assert (H : scan ascii_decode
    [adv (-70) [x03; x03; x0d; x18];
     adv (-60) [x07; x09; x53; x63; x61; x6c; x65; x31]] off
  = (Ok [mk_entry "AA:BB:CC:DD:EE:FF" "Scale1" (-60) ["180d"] 0 None None],
     mk_radio false false)) by (vm_compute; reflexivity).
  split; [exact H |].
  destruct (noise_filter_rule ascii_decode _ _ _ _ H) as (seen & Hs & _).
  exists seen. exact Hs.
Defined.

(** C6.  During a scan cycle the raw buffer never holds more than
    [_MAX_SCAN_ENTRIES] (200) entries: it is the first 200 advertisements
    that arrived, later ones are dropped, and parsing and deduplication
    run over those entries only. *)
Theorem raw_buffer_cap (utf8_decode : list byte -> option string)
    (events : list (Z * irq_data)) (hw : radio) :
  _MAX_SCAN_ENTRIES = 200
  /\ length (collect events []) <= _MAX_SCAN_ENTRIES
  /\ collect events [] = take _MAX_SCAN_ENTRIES (advertisements events)
  /\ (scan utf8_decode events hw).1
     = bind (post_process utf8_decode
               (take _MAX_SCAN_ENTRIES (advertisements events)) ∅)
         (fun seen => Ok (results_of seen)).
Proof.
  assert (Hc : collect events [] = take _MAX_SCAN_ENTRIES (advertisements events)).
  { rewrite collect_take by (simpl; lia). reflexivity. }
  split; [reflexivity |]. split; [| split; [exact Hc |]].
  - rewrite Hc, length_take. lia.
  - unfold scan. rewrite Hc.
    now destruct (post_process utf8_decode _ ∅).
Qed.

(** C7.  When post-processing raises, [scan] exits with the radio still
    active: [_ble.active(False)] is only reached on the normal path. *)
Theorem scan_raises_radio_active (utf8_decode : list byte -> option string)
    (hw : radio) :
  scan utf8_decode [adv (-60) [x03; xff; x01]] hw
  = (Raise IndexError, mk_radio true false).
Proof. reflexivity. Qed.

(** On the normal path the radio is off when [scan] returns. *)
Lemma scan_ok_radio_off (utf8_decode : list byte -> option string)
    (events : list (Z * irq_data)) (hw hw' : radio) (rs : list entry) :
  scan utf8_decode events hw = (Ok rs, hw') -> active hw' = false.
Proof.
  unfold scan. destruct (post_process utf8_decode _ ∅); try discriminate.
  now intros [= _ <-].
Qed.

(* ===================================================================== *)
(** * The Connect handler and the dispatch loop                          *)
(* ===================================================================== *)

Section OrchestratorFacts.

Context {W E J : Type}.
Variable env : Env W E J.
Variables PREFIX DEVICE_ID : string.

Abbreviation M := (@Main.M W E J).
Abbreviation keeps := (@keeps_flags W E J _).

Lemma keeps_ret {A} (a : A) : keeps (ret a).
Proof. intros s; simpl; auto. Qed.

Lemma keeps_bind {A B} (m : M A) (k : A -> M B) :
  keeps_flags m -> (forall a, keeps (k a)) -> keeps (mbind m k).
Proof.
  intros Hm Hk s. unfold mbind. specialize (Hm s).
  destruct (m s) as [[e | a] s']; simpl in *; [exact Hm |].
  destruct (Hk a s') as [H1 H2]. destruct Hm as [H3 H4]. split; congruence.
Qed.

Lemma keeps_await {A} (c : call J) (op : W -> (E + A) * W) :
  keeps (await c op).
Proof. intros s. unfold await. destruct (op (world s)); simpl; auto. Qed.

Lemma keeps_set_char_subscribed b : keeps (set_char_subscribed b).
Proof. intros s; simpl; auto. Qed.

Lemma keeps_get_char_subscribed : keeps get_char_subscribed.
Proof. intros s; simpl; auto. Qed.

Lemma keeps_start_notifies chars : keeps (start_notifies env chars).
Proof.
  induction chars as [|c chars IH]; simpl; [apply keeps_ret |].
  apply keeps_bind; [| intros _; exact IH].
  destruct (existsb _ _); [apply keeps_await | apply keeps_ret].
Qed.

Lemma keeps_connect_body msg :
  keeps (connect_body env PREFIX DEVICE_ID msg).
Proof.
  unfold connect_body.
  apply keeps_bind.
  { intros s. simpl. auto. }
  intros req. apply keeps_bind; [apply keeps_await |]. intros _.
  apply keeps_bind; [apply keeps_await |]. intros result.
  apply keeps_bind; [apply keeps_get_char_subscribed |]. intros subscribed.
  apply keeps_bind.
  { destruct (negb subscribed); [| apply keeps_ret].
    apply keeps_bind; [apply keeps_await |]. intros _.
    apply keeps_bind; [apply keeps_await |]. intros _.
    apply keeps_set_char_subscribed. }
  intros _. apply keeps_bind; [apply keeps_start_notifies |]. intros _.
  apply keeps_await.
Qed.

(** The busy wait returns normally and touches only [_busy], the trace
    and the collaborators; if it ends with [_busy] still set, it has
    slept [n] times. *)
Lemma busy_wait_spec n s :
  (busy_wait env n s).1 = inr tt
  /\ _scan_paused (busy_wait env n s).2 = _scan_paused s
  /\ _char_subscribed (busy_wait env n s).2 = _char_subscribed s
  /\ (_busy (busy_wait env n s).2 = true ->
      trace (busy_wait env n s).2
      = (trace s ++ repeat (Sleep_ms 500) n)%list).
Proof.
  revert s; induction n as [|n IH]; intros s.
  - simpl. rewrite app_nil_r. auto.
  - simpl. unfold mbind, get_busy. simpl.
    destruct (_busy s) eqn:Hb; simpl.
    + unfold sleep_ms.
      destruct (env_sleep env 500 true (world s)) as [b w'] eqn:Hs.
      rewrite Hb, Hs.
      match goal with |- context [busy_wait env n ?s1] => set (s' := s1) end.
      destruct (IH s') as (H1 & H2 & H3 & H4).
      repeat split; auto.
      intros Hbusy. rewrite (H4 Hbusy). subst s'. simpl.
      now rewrite <- app_assoc.
    + repeat split; auto. congruence.
Qed.

Lemma after_busy_wait_spec s :
  mbind (set_scan_paused true) (fun _ => busy_wait env 60) s
  = (inr tt, after_busy_wait env s)
  /\ _scan_paused (after_busy_wait env s) = true
  /\ _char_subscribed (after_busy_wait env s) = _char_subscribed s
  /\ (_busy (after_busy_wait env s) = true ->
      trace (after_busy_wait env s)
      = (trace s ++ repeat (Sleep_ms 500) 60)%list).
Proof.
  unfold after_busy_wait, mbind, set_scan_paused.
  match goal with |- context [busy_wait env 60 ?s1] => set (s' := s1) end.
  destruct (busy_wait_spec 60 s') as (H1 & H2 & H3 & H4).
  destruct (busy_wait env 60 s') as [r s''] eqn:Hw. simpl in *.
  subst r. repeat split; auto.
Qed.

Lemma handle_connect_unfold msg s :
  handle_connect env PREFIX DEVICE_ID msg s
  = let s1 := after_busy_wait env s in
    if _busy s1 then
      mbind (set_scan_paused false)
        (fun _ => publish_error env PREFIX DEVICE_ID busy_message) s1
    else
      mbind (set_busy true)
        (fun _ =>
           try_finally
             (try_except (connect_body env PREFIX DEVICE_ID msg)
                (fun e => mbind (set_scan_paused false) (fun _ => raise e)))
             (set_busy false)) s1.
Proof.
  unfold handle_connect, after_busy_wait, mbind, set_scan_paused, get_busy.
  cbv beta iota zeta.
  match goal with |- context [busy_wait env 60 ?s1] => set (s' := s1) end.
  destruct (busy_wait_spec 60 s') as (H1 & _).
  destruct (busy_wait env 60 s') as [[e | []] s1]; simpl in *;
    [discriminate H1 |].
  cbv beta iota zeta delta [snd fst].
  destruct (_busy s1) eqn:Hb; cbv beta; rewrite ?Hb; reflexivity.
Qed.

End OrchestratorFacts.

(** C8, the claim as stated fails: when the scan is still in flight after
    the sixty polls, the handler returns with [_scan_paused] false, not
    true. *)
Lemma busy_abort_unpauses :
  _busy (after_busy_wait stuck_env scanning_now) = true
  /\ (handle_connect stuck_env "bridge" "esp32" [] scanning_now).1 = inr tt
  /\ _scan_paused (handle_connect stuck_env "bridge" "esp32" [] scanning_now).2
     = false.
Proof. repeat split; vm_compute; reflexivity. Qed.

(** C8, amended.  If [_busy] is still true after the full wait (sixty
    polls, 500 ms apart), the Connect handler publishes exactly one Busy
    error, makes no other call but the sixty sleeps (so it does not
    connect), returns normally, and has set [_scan_paused] back to
    false. *)
Theorem connect_busy_abort {W E J : Type} (env : Env W E J)
    (PREFIX DEVICE_ID : string) (msg : list byte) (st : state W J)
    (Hbusy : _busy (after_busy_wait env st) = true) :
  let r := handle_connect env PREFIX DEVICE_ID msg st in
  r.1 = inr tt
  /\ _scan_paused r.2 = false
  /\ _char_subscribed r.2 = _char_subscribed st
  /\ trace r.2
     = (trace st ++ repeat (Sleep_ms 500) 60
          ++ [Publish (topic PREFIX DEVICE_ID "error") (PStr busy_message)])%list.
Proof.
  intros r. subst r. rewrite handle_connect_unfold. cbv zeta. rewrite Hbusy.
  destruct (after_busy_wait_spec env st) as (_ & _ & Hcs & Htr).
  specialize (Htr Hbusy).
  unfold mbind, set_scan_paused, publish_error, try_except, publish, await, ret.
  cbv beta iota zeta. cbn [world trace _busy _scan_paused _char_subscribed].
  destruct (env_publish env _ _ (world (after_busy_wait env st))) as [[e | []] w'];
    cbn [fst snd world trace _busy _scan_paused _char_subscribed];
    rewrite Htr, <- app_assoc; auto.
Qed.

Lemma connect_busy_abort_witness :
  _busy (after_busy_wait stuck_env scanning_now) = true
  /\ _scan_paused (handle_connect stuck_env "bridge" "esp32" [] scanning_now).2
     = false.
Proof.
  assert (H : _busy (after_busy_wait stuck_env scanning_now) = true)
    by (vm_compute; reflexivity).
  split; [exact H |].
  exact (proj1 (proj2 (connect_busy_abort stuck_env "bridge" "esp32" []
                         scanning_now H))).
Defined.

(** C9, the claim as stated fails: on the path where the wait for the
    scan gives up, the handler returns with [_busy] still set. *)
Lemma busy_abort_leaves_busy :
  (handle_connect stuck_env "bridge" "esp32" [] scanning_now).1 = inr tt
  /\ _busy (handle_connect stuck_env "bridge" "esp32" [] scanning_now).2 = true.
Proof. split; vm_compute; reflexivity. Qed.

(** C9, amended.  Once the busy wait has succeeded, the handler ends as
    the Connect sequence does: every failure raised in it (payload parse,
    tearing down the previous session, connecting, subscribing, starting
    the notify forwarding, publishing the connected event) is propagated
    with [_scan_paused] set to false, and on success and on failure alike
    [_busy] is cleared before the handler returns. *)
Theorem connect_failure_resumes_scanning {W E J : Type} (env : Env W E J)
    (PREFIX DEVICE_ID : string) (msg : list byte) (st : state W J)
    (Hfree : _busy (after_busy_wait env st) = false) :
  let s1 := (set_busy (E := E) true (after_busy_wait env st)).2 in
  let r := handle_connect env PREFIX DEVICE_ID msg st in
  r.1 = (connect_body env PREFIX DEVICE_ID msg s1).1
  /\ (forall e, r.1 = inl e -> _scan_paused r.2 = false)
  /\ (r.1 = inr tt -> _scan_paused r.2 = true)
  /\ _busy r.2 = false.
Proof.
  intros s1 r. subst r s1. rewrite handle_connect_unfold. cbv zeta.
  rewrite Hfree.
  destruct (after_busy_wait_spec env st) as (_ & Hp & _ & _).
  unfold try_finally, try_except, mbind, set_scan_paused, set_busy, raise.
  cbv beta iota. cbn [fst snd].
  match goal with
  | |- context [connect_body ?a ?b ?c ?d ?s] =>
      pose proof (keeps_connect_body a b c d s) as [_ Hk];
      destruct (connect_body a b c d s) as [[e | []] s2]
  end; cbn [fst snd _busy _scan_paused] in *.
  - repeat split; intros; try discriminate; auto.
  - repeat split; intros; try discriminate; auto. congruence.
Qed.

Lemma connect_failure_resumes_scanning_witness :
  _busy (after_busy_wait timeout_env idle) = false
  /\ (handle_connect timeout_env "bridge" "esp32" [] idle).1 = inl "timeout"
  /\ _scan_paused (handle_connect timeout_env "bridge" "esp32" [] idle).2 = false
  /\ _busy (handle_connect timeout_env "bridge" "esp32" [] idle).2 = false.
Proof.
  assert (H : _busy (after_busy_wait timeout_env idle) = false)
    by (vm_compute; reflexivity).
  split; [exact H |].
  destruct (connect_failure_resumes_scanning timeout_env "bridge" "esp32" []
              idle H) as (_ & Hfail & _ & Hb).
  assert (Hr : (handle_connect timeout_env "bridge" "esp32" [] idle).1
               = inl "timeout") by (vm_compute; reflexivity).
  split; [exact Hr |]. split; [exact (Hfail _ Hr) | exact Hb].
Defined.

(** C10.  A message whose topic starts with the [read/] prefix and whose
    remaining suffix contains [/response] makes the dispatch loop do
    nothing: no characteristic is read, nothing is published, no flag
    changes.  So the [read/{uuid}/response] message the bridge publishes
    itself triggers no read when it comes back in. *)
Theorem read_echo_guard {W E J : Type} (env : Env W E J)
    (PREFIX DEVICE_ID : string) (t uuid_str : string) (msg : list byte)
    (st : state W J)
    (Hread : Py.startswith (topic PREFIX DEVICE_ID "read/") t = true)
    (Hresp : Py.contains "/response"
               (after_prefix (topic PREFIX DEVICE_ID "read/") t) = true) :
  dispatch env PREFIX DEVICE_ID t msg st = (inr tt, st)
  /\ dispatch env PREFIX DEVICE_ID
       (topic PREFIX DEVICE_ID ("read/" +:+ uuid_str +:+ "/response")) msg st
     = (inr tt, st).
Proof.
  assert (Hgen : forall t',
    Py.startswith (topic PREFIX DEVICE_ID "read/") t' = true ->
    Py.contains "/response"
      (after_prefix (topic PREFIX DEVICE_ID "read/") t') = true ->
    dispatch env PREFIX DEVICE_ID t' msg st = (inr tt, st)).
  { clear t Hread Hresp. intros t Hread Hresp.
    unfold dispatch, try_except.
    destruct (prefix_split _ _ Hread) as [r Hr].
    assert (Ht : forall s, t <> topic PREFIX DEVICE_ID s \/ exists q, s = "read/" +:+ q).
    { intros s. destruct (String.eqb_spec t (topic PREFIX DEVICE_ID s)) as [Heq | Hne];
        [right | now left].
      rewrite Hr in Heq. unfold topic in Heq.
      rewrite !str_app_assoc in Heq.
      apply str_app_inv_head in Heq. apply str_app_inv_head in Heq.
      exists r. now rewrite <- Heq. }
    destruct (String.eqb_spec t (topic PREFIX DEVICE_ID "connect")) as [Heq | _].
    { destruct (Ht "connect") as [? | [q Hq]]; [contradiction | discriminate]. }
    destruct (String.eqb_spec t (topic PREFIX DEVICE_ID "disconnect")) as [Heq | _].
    { destruct (Ht "disconnect") as [? | [q Hq]]; [contradiction | discriminate]. }
    assert (Hw : Py.startswith (topic PREFIX DEVICE_ID "write/") t = false).
    { rewrite Hr. unfold Py.startswith, topic.
      rewrite !str_app_assoc, !prefix_app_cancel. reflexivity. }
    rewrite Hw, Hread, Hresp. reflexivity. }
  split; [now apply Hgen |].
  assert (Ht : topic PREFIX DEVICE_ID ("read/" +:+ uuid_str +:+ "/response")
               = topic PREFIX DEVICE_ID "read/" +:+ (uuid_str +:+ "/response")).
  { unfold topic. now rewrite !str_app_assoc. }
  apply Hgen; rewrite Ht.
  - apply prefix_app.
  - unfold after_prefix. rewrite str_from_app. apply contains_app_r.
Qed.

Lemma read_echo_guard_witness :
  Py.startswith (topic "bridge" "esp32" "read/")
    "bridge/esp32/read/00002a9d00001000800000805f9b34fb/response" = true
  /\ dispatch timeout_env "bridge" "esp32"
       "bridge/esp32/read/00002a9d00001000800000805f9b34fb/response" [] idle
     = (inr tt, idle).
Proof.
  assert (H1 : Py.startswith (topic "bridge" "esp32" "read/")
    "bridge/esp32/read/00002a9d00001000800000805f9b34fb/response" = true)
    by (vm_compute; reflexivity).
  split; [exact H1 |].
  refine (proj1 (read_echo_guard timeout_env "bridge" "esp32" _ EmptyString [] idle H1 _)).
  vm_compute; reflexivity.
Defined.

Import Tlv.

(* ===================================================================== *)
(** * The parse loop on whole payloads                                   *)
(* ===================================================================== *)

Section TlvFacts.

Variable utf8_decode : list byte -> option string.

(** Any two amounts of fuel above the number of bytes left give the same
    result. *)
Lemma ad_loop_fuel_irrelevant fuel1 fuel2 raw i st :
  length raw - i < fuel1 -> length raw - i < fuel2 ->
  ad_loop utf8_decode fuel1 raw i st = ad_loop utf8_decode fuel2 raw i st.
Proof.
  revert fuel2 i st; induction fuel1 as [|fuel1 IH]; intros fuel2 i st H1 H2;
    [lia |].
  destruct fuel2 as [|fuel2]; [lia |]. simpl.
  destruct (raw !! i) as [lenb|] eqn:Hi; [| reflexivity].
  apply lookup_lt_Some in Hi.
  destruct (Byte.to_N lenb =? 0)%N; [reflexivity |].
  destruct (raw !! (i + 1)) as [tyb|]; [| reflexivity].
  destruct (ad_structure utf8_decode _ _ _ st) as [st'| e |]; simpl;
    try reflexivity.
  apply IH; lia.
Qed.

Abbreviation run := (Tlv.run utf8_decode).

Lemma run_end raw i st : length raw <= i -> run raw i st = Ok st.
Proof.
  intros H. unfold Tlv.run. simpl. now rewrite lookup_ge_None_2.
Qed.

Lemma run_zero raw i st : raw !! i = Some x00 -> run raw i st = Ok st.
Proof. intros H. unfold Tlv.run. simpl. now rewrite H. Qed.

Lemma run_lone raw i lenb st :
  raw !! i = Some lenb -> raw !! (i + 1) = None -> run raw i st = Ok st.
Proof.
  intros H1 H2. unfold Tlv.run. simpl. rewrite H1, H2.
  now destruct (Byte.to_N lenb =? 0)%N.
Qed.

Lemma slice_structure (pre rest : list byte) (a : ad_struct) :
  complete a ->
  Py.bytes_slice (pre ++ ad_len a :: ad_ty a :: ad_data a ++ rest)
    (length pre + 2) (length pre + 1 + N.to_nat (Byte.to_N (ad_len a)))
  = ad_data a.
Proof.
  unfold complete, Py.bytes_slice. intros ->.
  replace (length pre + 1 + S (length (ad_data a)))
    with (length pre + (2 + length (ad_data a))) by lia.
  rewrite take_app_add. simpl take. rewrite take_app_length.
  rewrite drop_app_add. reflexivity.
Qed.

(** One pass of the loop over a complete structure. *)
Lemma run_structure (pre rest : list byte) (a : ad_struct) st :
  complete a ->
  let raw := (pre ++ ad_len a :: ad_ty a :: ad_data a ++ rest)%list in
  run raw (length pre) st
  = bind (ad_structure utf8_decode (Byte.to_N (ad_len a)) (Byte.to_N (ad_ty a))
            (ad_data a) st)
      (fun st' => run raw (length (pre ++ ad_len a :: ad_ty a :: ad_data a)) st').
Proof.
  intros Hc raw. unfold Tlv.run at 1. simpl ad_loop.
  assert (H0 : raw !! length pre = Some (ad_len a))
    by (subst raw; now apply list_lookup_middle).
  assert (H1 : raw !! (length pre + 1) = Some (ad_ty a)).
  { subst raw. rewrite lookup_app_r by lia.
    now replace (length pre + 1 - length pre) with 1 by lia. }
  rewrite H0, H1.
  destruct (N.eqb_spec (Byte.to_N (ad_len a)) 0) as [Hz | _].
  { unfold complete in Hc. rewrite Hz in Hc. discriminate. }
  subst raw. rewrite slice_structure by assumption.
  destruct (ad_structure utf8_decode _ _ _ st) as [st'| e |]; simpl;
    try reflexivity.
  replace (length pre + (N.to_nat (Byte.to_N (ad_len a)) + 1))
    with (length (pre ++ ad_len a :: ad_ty a :: ad_data a)).
  2:{ rewrite length_app. simpl. unfold complete in Hc. lia. }
  unfold Tlv.run. apply ad_loop_fuel_irrelevant; [| lia].
  rewrite !length_app. simpl. rewrite !length_app. lia.
Qed.

(** A complete structure never raises; it adds its fields. *)
Lemma ad_structure_complete (a : ad_struct) st :
  complete a ->
  ad_structure utf8_decode (Byte.to_N (ad_len a)) (Byte.to_N (ad_ty a))
    (ad_data a) st
  = Ok (fields_after utf8_decode st [a]).
Proof.
  intros Hc. unfold ad_structure, fields_after, names, service_uuids, mfrs,
    is_name, is_services, is_mfr. simpl omap. simpl flat_map.
  set (ty := Byte.to_N (ad_ty a)).
  destruct (N.eqb_spec ty 9) as [E9 | N9]; simpl orb.
  { rewrite E9. simpl. destruct (utf8_decode (ad_data a)); simpl;
      rewrite app_nil_r; [reflexivity | now destruct st]. }
  destruct (N.eqb_spec ty 8) as [E8 | N8]; simpl orb.
  { rewrite E8. simpl. destruct (utf8_decode (ad_data a)); simpl;
      rewrite app_nil_r; [reflexivity | now destruct st]. }
  destruct (N.eqb_spec ty 3) as [E3 | N3]; simpl orb.
  { rewrite E3. simpl. rewrite app_nil_r. reflexivity. }
  destruct (N.eqb_spec ty 2) as [E2 | N2]; simpl orb.
  { rewrite E2. simpl. rewrite app_nil_r. reflexivity. }
  rewrite app_nil_r.
  destruct (N.eqb_spec ty 255) as [EF | NF]; simpl andb.
  2:{ simpl. now destruct st. }
  unfold complete in Hc.
  destruct (N.leb_spec 3 (Byte.to_N (ad_len a))) as [H3 | H3];
    destruct (Nat.leb_spec 2 (length (ad_data a))) as [H2 | H2]; try lia.
  - destruct (ad_data a) as [|b0 [|b1 rest]] eqn:Hd; simpl in H2; try lia.
    simpl. reflexivity.
  - destruct (ad_data a) as [|b0 [|b1 rest]]; simpl in *; try lia;
      now destruct st.
Qed.

Lemma fields_after_nil st : fields_after utf8_decode st [] = st.
Proof.
  unfold fields_after. simpl. rewrite app_nil_r. now destruct st.
Qed.

Lemma fields_after_cons st a ads :
  fields_after utf8_decode (fields_after utf8_decode st [a]) ads
  = fields_after utf8_decode st (a :: ads).
Proof.
  unfold fields_after. cbn [f_name f_services f_mfr_id f_mfr_data].
  change (a :: ads) with ([a] ++ ads)%list.
  unfold names, service_uuids, mfrs.
  rewrite !omap_app, flat_map_app, !last_app, app_assoc.
  f_equal.
  - now destruct (last (omap _ ads)).
  - now destruct (last (omap _ ads)).
  - now destruct (last (omap _ ads)).
Qed.

(** The loop over a payload of complete structures reaches the end of
    the structures with their fields added. *)
Lemma run_encode (ads : list ad_struct) (pre rest : list byte) st :
  Forall complete ads ->
  run (pre ++ encode ads ++ rest) (length pre) st
  = run (pre ++ encode ads ++ rest) (length (pre ++ encode ads))
      (fields_after utf8_decode st ads).
Proof.
  intros Hall. revert pre st. induction Hall as [|a ads Ha Hall IH]; intros pre st.
  - simpl. now rewrite app_nil_r, fields_after_nil.
  - simpl encode.
    replace (pre ++ (ad_len a :: ad_ty a :: ad_data a ++ encode ads) ++ rest)%list
      with (pre ++ ad_len a :: ad_ty a :: ad_data a ++ (encode ads ++ rest))%list
      by (simpl; now rewrite <- app_assoc).
    rewrite (run_structure pre (encode ads ++ rest) a st Ha).
    rewrite ad_structure_complete by assumption. simpl bind.
    set (pre' := (pre ++ ad_len a :: ad_ty a :: ad_data a)%list).
    replace (pre ++ ad_len a :: ad_ty a :: ad_data a ++ encode ads ++ rest)%list
      with (pre' ++ encode ads ++ rest)%list
      by (subst pre'; rewrite <- !app_assoc; reflexivity).
    rewrite IH, fields_after_cons. f_equal.
    subst pre'. rewrite !length_app. simpl. rewrite !length_app. lia.
Qed.

End TlvFacts.

(** X1.  The parse loop terminates on every payload: it returns fields or
    raises [IndexError], and every amount of fuel above the length of the
    payload gives that same result. *)
Theorem parse_loop_terminates (utf8_decode : list byte -> option string)
    (raw : list byte) :
  ((exists f, parse_ad utf8_decode raw = Ok f)
   \/ parse_ad utf8_decode raw = Raise IndexError)
  /\ (forall fuel, length raw < fuel ->
        ad_loop utf8_decode fuel raw 0 init_fields = parse_ad utf8_decode raw).
Proof.
  split.
  - destruct (parse_ad_terminates utf8_decode raw) as [H | [[] H]]; auto.
  - intros fuel H. apply ad_loop_fuel_irrelevant; lia.
Qed.

(** X2.  A payload made of complete structures never raises: parsing
    gives the last name that decodes, the 16-bit service UUIDs of all
    service structures in order, and the id and data of the last
    manufacturer structure that has at least two value bytes; structures
    of other types are skipped. *)
Theorem parse_complete_payload (utf8_decode : list byte -> option string)
    (ads : list ad_struct) (Hall : Forall complete ads) :
  parse_ad utf8_decode (encode ads)
  = Ok (mk_fields
          (default EmptyString (last (names utf8_decode ads)))
          (service_uuids ads)
          (fst <$> last (mfrs ads))
          (snd <$> last (mfrs ads))).
Proof.
  pose proof (run_encode utf8_decode ads [] [] init_fields Hall) as H.
  simpl in H. rewrite app_nil_r in H. unfold Tlv.run in H.
  unfold parse_ad. rewrite H.
  change (ad_loop utf8_decode (S (length (encode ads))) (encode ads)
            (length (encode ads)) ?st) with (run utf8_decode (encode ads) (length (encode ads)) st).
  rewrite run_end by lia. unfold fields_after. simpl.
  now destruct (last (mfrs ads)).
Qed.

Lemma parse_complete_payload_witness :
  Forall complete
    [mk_ad x07 x09 [x53; x63; x61; x6c; x65; x31];
     mk_ad x03 x03 [x0d; x18];
     mk_ad x05 xff [x01; x00; xbe; xef]]
  /\ parse_ad ascii_decode
       [x07; x09; x53; x63; x61; x6c; x65; x31;
        x03; x03; x0d; x18; x05; xff; x01; x00; xbe; xef]
     = Ok (mk_fields "Scale1" ["180d"] (Some 1%N) (Some "beef")).
Proof.
  assert (H : Forall complete
    [mk_ad x07 x09 [x53; x63; x61; x6c; x65; x31];
     mk_ad x03 x03 [x0d; x18];
     mk_ad x05 xff [x01; x00; xbe; xef]])
    by (repeat constructor).
  split; [exact H |].
  exact (parse_complete_payload ascii_decode _ H).
Defined.

(** X3.  After complete structures, a zero length byte ends parsing
    whatever follows it, and so does a lone last byte that has no type
    byte after it: the result is that of the structures alone. *)
Theorem parse_ignores_tail (utf8_decode : list byte -> option string)
    (ads : list ad_struct) (junk : list byte) (b : byte)
    (Hall : Forall complete ads) :
  parse_ad utf8_decode (encode ads ++ x00 :: junk)
  = parse_ad utf8_decode (encode ads)
  /\ parse_ad utf8_decode (encode ads ++ [b])
     = parse_ad utf8_decode (encode ads).
Proof.
  assert (Hgen : forall rest,
    (rest = x00 :: junk \/ rest = [b]) ->
    parse_ad utf8_decode (encode ads ++ rest) = parse_ad utf8_decode (encode ads)).
  { intros rest Hrest.
    pose proof (run_encode utf8_decode ads [] rest init_fields Hall) as H.
    pose proof (run_encode utf8_decode ads [] [] init_fields Hall) as H0.
    simpl in H, H0. rewrite app_nil_r in H0.
    unfold parse_ad. fold (run utf8_decode (encode ads ++ rest) 0 init_fields).
    fold (run utf8_decode (encode ads) 0 init_fields).
    rewrite H, H0, (run_end utf8_decode (encode ads)) by lia.
    destruct Hrest as [-> | ->].
    - apply run_zero. now apply list_lookup_middle.
    - apply (run_lone utf8_decode _ _ b).
      + now apply list_lookup_middle.
      + apply lookup_ge_None_2. rewrite length_app. simpl. lia. }
  split; apply Hgen; auto.
Qed.

Lemma parse_ignores_tail_witness :
  Forall complete [mk_ad x03 x03 [x0d; x18]]
  /\ parse_ad ascii_decode
       (encode [mk_ad x03 x03 [x0d; x18]] ++ x00 :: [xff; xff; xff])
     = parse_ad ascii_decode (encode [mk_ad x03 x03 [x0d; x18]]).
Proof.
  assert (H : Forall complete [mk_ad x03 x03 [x0d; x18]])
    by (repeat constructor).
  split; [exact H |].
  exact (proj1 (parse_ignores_tail ascii_decode
                  [mk_ad x03 x03 [x0d; x18]] [xff; xff; xff] x00 H)).
Defined.

(* ===================================================================== *)
(** * Formatting of bytes                                                *)
(* ===================================================================== *)

Section ByteFacts.

Lemma all_bytes_complete (b : byte) : In b all_bytes.
Proof.
  apply list_elem_of_In, list_elem_of_omap. exists (Byte.to_nat b). split.
  - apply elem_of_seq. pose proof (Byte.to_nat_bounded b). lia.
  - now rewrite <- Byte.to_N_via_nat, Byte.of_to_N.
Qed.

(** A property checked on every pair of byte values holds of all
    bytes. *)
Lemma by_all_bytes (p : byte -> byte -> bool) :
  forallb (fun x => forallb (p x) all_bytes) all_bytes = true ->
  forall x y, p x y = true.
Proof.
  intros H x y.
  rewrite forallb_forall in H. specialize (H x (all_bytes_complete x)).
  rewrite forallb_forall in H. exact (H y (all_bytes_complete y)).
Qed.

(** ["%04x"] of a little-endian pair is the two bytes in hex, high byte
    first. *)
Lemma fmt_04x_pair (lo hi : byte) :
  Py.fmt_04x (N.lor (Byte.to_N lo) (N.shiftl (Byte.to_N hi) 8))
  = Py.hex2 false (Byte.to_N hi) +:+ Py.hex2 false (Byte.to_N lo).
Proof.
  apply String.eqb_eq.
  apply (by_all_bytes
           (fun lo hi =>
              String.eqb
                (Py.fmt_04x (N.lor (Byte.to_N lo) (N.shiftl (Byte.to_N hi) 8)))
                (Py.hex2 false (Byte.to_N hi) +:+ Py.hex2 false (Byte.to_N lo)))).
  vm_compute. reflexivity.
Qed.

(** ["%02X"] tells bytes apart. *)
Lemma hex2_upper_inj (x y : byte) :
  Py.hex2 true (Byte.to_N x) = Py.hex2 true (Byte.to_N y) -> x = y.
Proof.
  intros H. apply Byte.byte_dec_bl.
  pose proof (by_all_bytes
    (fun x y =>
       implb (String.eqb (Py.hex2 true (Byte.to_N x)) (Py.hex2 true (Byte.to_N y)))
             (Byte.eqb x y))
    ltac:(vm_compute; reflexivity) x y) as Hp.
  apply String.eqb_eq in H. cbv beta in Hp. rewrite H in Hp. exact Hp.
Qed.

Lemma hex2_shape (u : bool) (n : N) :
  exists c d, Py.hex2 u n = String c (String d EmptyString).
Proof. unfold Py.hex2. eauto. Qed.

Lemma mac_of_cons2 (a b : byte) (r : list byte) :
  mac_of (a :: b :: r)
  = Py.hex2 true (Byte.to_N a) +:+ ":" +:+ mac_of (b :: r).
Proof. reflexivity. Qed.

Lemma mac_of_length (addr : list byte) :
  String.length (mac_of addr) = 3 * length addr - 1.
Proof.
  induction addr as [|a [|b r] IH]; [reflexivity | reflexivity |].
  rewrite mac_of_cons2, !str_app_length, IH. simpl. lia.
Qed.

Lemma mac_of_inj (a b : list byte) : mac_of a = mac_of b -> a = b.
Proof.
  revert b; induction a as [|x [|x2 r] IH]; intros b H.
  - destruct b as [|y [|y2 s]]; [reflexivity | |].
    + destruct (hex2_shape true (Byte.to_N y)) as (c & d & Hy).
      unfold mac_of in H. simpl in H. rewrite Hy in H. discriminate.
    + apply (f_equal String.length) in H. rewrite !mac_of_length in H.
      simpl in H. lia.
  - destruct b as [|y [|y2 s]].
    + apply (f_equal String.length) in H. rewrite !mac_of_length in H.
      simpl in H. lia.
    + f_equal. apply hex2_upper_inj. exact H.
    + apply (f_equal String.length) in H. rewrite !mac_of_length in H.
      simpl in H. lia.
  - destruct b as [|y [|y2 s]].
    + apply (f_equal String.length) in H. rewrite !mac_of_length in H.
      simpl in H. lia.
    + apply (f_equal String.length) in H. rewrite !mac_of_length in H.
      simpl in H. lia.
    + rewrite !mac_of_cons2 in H.
      destruct (hex2_shape true (Byte.to_N x)) as (c & d & Hx).
      destruct (hex2_shape true (Byte.to_N y)) as (c' & d' & Hy).
      rewrite Hx, Hy in H. rewrite !str_app_cons, !str_app_nil in H.
      injection H as Hc Hd Hrest.
      assert (x = y) by (apply hex2_upper_inj; rewrite Hx, Hy; congruence).
      subst y. f_equal. apply IH. exact Hrest.
Qed.

End ByteFacts.

(** X4.  The service list of a structure has one entry for every
    complete pair of value bytes, so a trailing odd byte is dropped; every
    entry is the pair read little-endian, printed as exactly four
    lowercase hexadecimal digits. *)
Theorem services16_pairs (lo hi : byte) (p : list byte) :
  length (services16 p) = length p / 2
  /\ Forall (fun s => String.length s = 4 /\ all_chars is_lower_hex s = true)
       (services16 p)
  /\ services16 (lo :: hi :: p)
     = (Py.hex2 false (Byte.to_N hi) +:+ Py.hex2 false (Byte.to_N lo))
         :: services16 p.
Proof.
  assert (Hcons : forall lo hi p,
    services16 (lo :: hi :: p)
    = (Py.hex2 false (Byte.to_N hi) +:+ Py.hex2 false (Byte.to_N lo))
        :: services16 p).
  { intros. simpl. now rewrite fmt_04x_pair. }
  assert (Hgen : forall n (q : list byte), length q < n ->
    length (services16 q) = length q / 2
    /\ Forall (fun s => String.length s = 4 /\ all_chars is_lower_hex s = true)
         (services16 q)).
  { induction n as [|n IH]; intros q Hq; [lia |].
    destruct q as [|a [|b q]]; [split; [reflexivity | constructor] .. |].
    rewrite Hcons. simpl length in *.
    destruct (IH q ltac:(lia)) as [Hl Hf]. split.
    - rewrite Hl. change (S (S (length q))) with (2 + length q).
      replace (2 + length q) with (1 * 2 + length q) by lia.
      rewrite Nat.div_add_l by lia. lia.
    - constructor; [| exact Hf]. split.
      + reflexivity.
      + now rewrite all_chars_app, !hex2_lower. }
  destruct (Hgen (S (length p)) p ltac:(lia)) as [H1 H2].
  repeat split; auto.
Qed.

(** X5.  The MAC string of an address has two uppercase hexadecimal
    digits per byte with colons between them, and different addresses
    have different MAC strings: two devices never share a key of the
    [seen] dict. *)
Theorem mac_of_injective (a b : list byte) :
  String.length (mac_of a) = 3 * length a - 1
  /\ (mac_of a = mac_of b <-> a = b).
Proof.
  split; [apply mac_of_length |].
  split; [apply mac_of_inj | now intros ->].
Qed.

(* ===================================================================== *)
(** * The [seen] dict over a whole scan cycle                            *)
(* ===================================================================== *)

Section SeenFacts.

Local Open Scope list_scope.

Variable utf8_decode : list byte -> option string.

Abbreviation mac_of_raw := (fun r : raw_result => mac_of (r_addr r)).

Lemma process_one_ok seen r seen' :
  process_one utf8_decode seen r = Ok seen' ->
  exists f, parse_ad utf8_decode (r_adv r) = Ok f
            /\ seen' = dedup seen (mac_of (r_addr r)) (r_addr_type r) (r_rssi r) f.
Proof.
  unfold process_one.
  destruct (parse_ad utf8_decode (r_adv r)) as [f| |]; simpl; try discriminate.
  intros [= <-]. eauto.
Qed.

Lemma post_process_app rs1 rs2 seen :
  post_process utf8_decode (rs1 ++ rs2) seen
  = bind (post_process utf8_decode rs1 seen) (post_process utf8_decode rs2).
Proof.
  revert seen; induction rs1 as [|r rs1 IH]; intros seen; [reflexivity |].
  simpl. destruct (process_one utf8_decode seen r); simpl; auto.
Qed.

(** Induction over the post-processing loop: a property of [seen] and of
    the advertisements processed so far that every dedup step keeps. *)
Lemma post_process_ind (Inv : gmap string entry -> list raw_result -> Prop)
    (rs done : list raw_result) (seen0 seen : gmap string entry) :
  Inv seen0 done ->
  (forall s d r f,
      Inv s d -> parse_ad utf8_decode (r_adv r) = Ok f ->
      Inv (dedup s (mac_of (r_addr r)) (r_addr_type r) (r_rssi r) f)
          (d ++ [r])) ->
  post_process utf8_decode rs seen0 = Ok seen ->
  Inv seen (done ++ rs).
Proof.
  intros H0 Hstep. revert done seen0 H0.
  induction rs as [|r rs IH]; intros done seen0 H0 Hrun.
  - simpl in Hrun. injection Hrun as <-. now rewrite app_nil_r.
  - simpl in Hrun.
    destruct (process_one utf8_decode seen0 r) as [s1| |] eqn:H1;
      simpl in Hrun; try discriminate.
    apply process_one_ok in H1 as (f & Hf & ->).
    replace (done ++ r :: rs) with ((done ++ [r]) ++ rs)
      by (now rewrite <- app_assoc).
    eapply IH; [| exact Hrun]. now apply Hstep.
Qed.

Lemma fresh_fields mac t r f :
  address (fresh mac t r f) = mac /\ rssi (fresh mac t r f) = r
  /\ addr_type (fresh mac t r f) = t /\ services (fresh mac t r f) = f_services f
  /\ name (fresh mac t r f) = f_name f.
Proof. unfold fresh. destruct (f_mfr_id f); simpl; auto. Qed.

Lemma dedup_lookup seen mac t r f mac' :
  dedup seen mac t r f !! mac'
  = if decide (mac = mac') then
      Some (match seen !! mac with
            | Some old => merge old r f
            | None => fresh mac t r f
            end)
    else seen !! mac'.
Proof.
  unfold dedup. destruct (seen !! mac) eqn:Hs;
    rewrite lookup_insert; destruct (decide (mac = mac')); reflexivity.
Qed.

Lemma keyed_step s d r f :
  keyed s d ->
  keyed (dedup s (mac_of (r_addr r)) (r_addr_type r) (r_rssi r) f) (d ++ [r]).
Proof.
  intros [Hk Ha]. split.
  - intros mac. rewrite dedup_lookup. unfold macs in *.
    rewrite map_app, elem_of_app. simpl. rewrite list_elem_of_singleton.
    destruct (decide (mac_of (r_addr r) = mac)) as [<- | Hne].
    + split; [now right | eauto].
    + rewrite Hk. split; [now left | intros [? | ?]; [assumption | congruence]].
  - intros mac e. rewrite dedup_lookup.
    destruct (decide (mac_of (r_addr r) = mac)) as [<- | Hne]; [| apply Ha].
    intros [= <-]. destruct (s !! mac_of (r_addr r)) as [old|] eqn:Hs.
    + destruct (merge_rest old (r_rssi r) f) as (-> & _). now apply Ha.
    + apply fresh_fields.
Qed.

Lemma keyed_post_process rs seen :
  post_process utf8_decode rs ∅ = Ok seen -> keyed seen rs.
Proof.
  intros H. apply (post_process_ind keyed rs [] ∅ seen); [| | exact H].
  - split.
    + intros mac. rewrite lookup_empty. unfold macs. simpl.
      split; [intros [? ?]; discriminate | intros ?%elem_of_nil; contradiction].
    + intros mac e. rewrite lookup_empty. discriminate.
  - intros s d r f Hi _. now apply keyed_step.
Qed.

Lemma strongest_step s d r f :
  keyed s d -> strongest s d ->
  strongest (dedup s (mac_of (r_addr r)) (r_addr_type r) (r_rssi r) f) (d ++ [r]).
Proof.
  intros [Hk _] Hs mac e. rewrite dedup_lookup.
  destruct (decide (mac_of (r_addr r) = mac)) as [<- | Hne].
  - intros [= <-]. destruct (s !! mac_of (r_addr r)) as [old|] eqn:Hold.
    + destruct (Hs _ _ Hold) as [(r0 & Hin & Hm & Hr) Hmax].
      rewrite merge_rssi. split.
      * destruct (Z.max_spec (rssi old) (r_rssi r)) as [[_ ->] | [_ ->]].
        -- exists r. rewrite elem_of_app, list_elem_of_singleton. auto.
        -- exists r0. rewrite elem_of_app. auto.
      * intros r1 [Hin1 | ->%list_elem_of_singleton]%elem_of_app Hm1.
        -- specialize (Hmax r1 Hin1 Hm1). lia.
        -- lia.
    + destruct (fresh_fields (mac_of (r_addr r)) (r_addr_type r) (r_rssi r) f)
        as (_ & -> & _). split.
      * exists r. rewrite elem_of_app, list_elem_of_singleton. auto.
      * intros r1 [Hin1 | ->%list_elem_of_singleton]%elem_of_app Hm1; [| lia].
        exfalso. assert (Hsome : is_Some (s !! mac_of (r_addr r))).
        { apply Hk. unfold macs. apply list_elem_of_fmap. eauto. }
        rewrite Hold in Hsome. now destruct Hsome.
  - intros He. destruct (Hs _ _ He) as [(r0 & Hin & Hm & Hr) Hmax]. split.
    + exists r0. rewrite elem_of_app. auto.
    + intros r1 [Hin1 | ->%list_elem_of_singleton]%elem_of_app Hm1;
        [now apply Hmax | congruence].
Qed.

Lemma strongest_post_process rs seen :
  post_process utf8_decode rs ∅ = Ok seen -> strongest seen rs.
Proof.
  intros H.
  apply (post_process_ind (fun s d => keyed s d /\ strongest s d) rs [] ∅ seen);
    [| | exact H].
  - split; [apply (keyed_post_process [] ∅ eq_refl) |].
    intros mac e. rewrite lookup_empty. discriminate.
  - intros s d r f [Hk Hs] _. split;
      [now apply keyed_step | now apply strongest_step].
Qed.

Lemma merge_keeps old r f :
  (name old <> EmptyString -> name (merge old r f) = name old)
  /\ (Py.truthy_opt (manufacturer_data old) = true ->
      manufacturer_id (merge old r f) = manufacturer_id old
      /\ manufacturer_data (merge old r f) = manufacturer_data old).
Proof.
  split.
  - intros Hn. rewrite merge_name. apply truthy_spec in Hn. rewrite Hn.
    now rewrite andb_false_r.
  - intros Hd. pose proof (merge_mfr old r f) as H. rewrite Hd in H.
    rewrite andb_false_r in H. now injection H.
Qed.

Lemma same_static_refl e : same_static e e.
Proof. unfold same_static. repeat split; auto. Qed.

Lemma same_static_trans e1 e2 e3 :
  same_static e1 e2 -> same_static e2 e3 -> same_static e1 e3.
Proof.
  intros (A1 & S1 & T1 & N1 & D1) (A2 & S2 & T2 & N2 & D2).
  unfold same_static. split; [congruence |]. split; [congruence |].
  split; [congruence |]. split.
  - intros Hne. rewrite N2; [now apply N1 |]. now rewrite N1.
  - intros Ht. destruct (D1 Ht) as [I1 M1].
    destruct D2 as [I2 M2]; [now rewrite M1 |]. split; congruence.
Qed.

Lemma same_static_merge e r f : same_static e (merge e r f).
Proof.
  destruct (merge_rest e r f) as (Ha & Hs & Ht).
  destruct (merge_keeps e r f) as (Hn & Hd).
  unfold same_static. auto.
Qed.

(** A record that is in [seen] stays, and later advertisements change
    only what [same_static] leaves open. *)
Lemma post_process_keeps rs seen0 seen mac e :
  post_process utf8_decode rs seen0 = Ok seen ->
  seen0 !! mac = Some e ->
  exists e', seen !! mac = Some e' /\ same_static e e'.
Proof.
  revert seen0 e; induction rs as [|r rs IH]; intros seen0 e Hrun He.
  - simpl in Hrun. injection Hrun as <-. exists e. split; [exact He |].
    apply same_static_refl.
  - simpl in Hrun.
    destruct (process_one utf8_decode seen0 r) as [s1| |] eqn:H1;
      simpl in Hrun; try discriminate.
    apply process_one_ok in H1 as (f & Hf & ->).
    destruct (decide (mac_of (r_addr r) = mac)) as [Heq | Hne].
    + assert (Hl : dedup seen0 (mac_of (r_addr r)) (r_addr_type r) (r_rssi r) f
                   !! mac = Some (merge e (r_rssi r) f)).
      { rewrite dedup_lookup, Heq, He. now destruct (decide (mac = mac)). }
      destruct (IH _ _ Hrun Hl) as (e' & He' & Hs).
      exists e'. split; [exact He' |].
      eapply same_static_trans; [apply same_static_merge | exact Hs].
    + apply (IH _ _ Hrun). rewrite dedup_lookup.
      now destruct (decide (mac_of (r_addr r) = mac)).
Qed.

Lemma size_dedup seen mac t r f :
  size (dedup seen mac t r f) <= S (size seen).
Proof.
  unfold dedup. destruct (seen !! mac) eqn:Hs; rewrite map_size_insert, Hs;
    simpl; lia.
Qed.

Lemma size_post_process rs seen0 seen :
  post_process utf8_decode rs seen0 = Ok seen ->
  size seen <= size seen0 + length rs.
Proof.
  revert seen0; induction rs as [|r rs IH]; intros seen0 Hrun.
  - simpl in Hrun. injection Hrun as <-. lia.
  - simpl in Hrun.
    destruct (process_one utf8_decode seen0 r) as [s1| |] eqn:H1;
      simpl in Hrun; try discriminate.
    apply process_one_ok in H1 as (f & Hf & ->).
    specialize (IH _ Hrun).
    pose proof (size_dedup seen0 (mac_of (r_addr r)) (r_addr_type r) (r_rssi r) f).
    simpl. lia.
Qed.


End SeenFacts.

Section ResultFacts.

Local Open Scope list_scope.

Variable utf8_decode : list byte -> option string.

Lemma NoDup_filter_map {A B} (g : A -> B) (p : A -> bool) (l : list A) :
  NoDup (map g l) -> NoDup (map g (List.filter p l)).
Proof.
  induction l as [|x l IH]; simpl; [auto |].
  intros [Hx Hl]%NoDup_cons. destruct (p x); simpl; [| auto].
  apply NoDup_cons. split; [| auto].
  intros Hin. apply Hx. apply list_elem_of_fmap in Hin as (y & -> & Hy).
  apply list_elem_of_fmap. exists y. split; [reflexivity |].
  apply list_elem_of_In, filter_In in Hy as [Hy _]. now apply list_elem_of_In.
Qed.

Lemma values_addresses (seen : gmap string entry) :
  (forall mac e, seen !! mac = Some e -> address e = mac) ->
  map address (map snd (map_to_list seen)) = map fst (map_to_list seen).
Proof.
  intros Ha. rewrite map_map. apply map_ext_in.
  intros [mac e] Hin. simpl. apply Ha.
  now apply elem_of_map_to_list, list_elem_of_In.
Qed.

Lemma results_of_length (seen : gmap string entry) :
  length (results_of seen) <= size seen.
Proof.
  unfold results_of. rewrite <- length_map_to_list.
  rewrite <- (length_map snd (map_to_list seen)).
  apply filter_length_le.
Qed.

Lemma collect_length events :
  length (collect events []) <= _MAX_SCAN_ENTRIES.
Proof.
  rewrite collect_take by (simpl; lia).
  rewrite length_app, length_take. simpl length. lia.
Qed.




End ResultFacts.

(** X6.  After post-processing, [seen] holds exactly one record for every
    address that advertised: its keys are the MAC strings of the
    advertisements processed, every record is stored under its own
    [address], and there are no more records than advertisements. *)
Theorem seen_keys_are_addresses (utf8_decode : list byte -> option string)
    (rs : list raw_result) (seen : gmap string entry)
    (Hrun : post_process utf8_decode rs ∅ = Ok seen) :
  (forall mac, is_Some (seen !! mac) <-> mac ∈ macs rs)
  /\ (forall mac e, seen !! mac = Some e -> address e = mac)
  /\ size seen <= length rs.
Proof.
  destruct (keyed_post_process utf8_decode rs seen Hrun) as [Hk Ha].
  repeat split; try apply Hk; auto.
  pose proof (size_post_process utf8_decode rs ∅ seen Hrun) as Hs.
  rewrite map_size_empty in Hs. lia.
Qed.

Lemma seen_keys_are_addresses_witness :
  post_process ascii_decode
    (collect [adv (-80) [x03; x03; x0d; x18];
              adv (-60) [x07; x09; x53; x63; x61; x6c; x65; x31]] []) ∅
  = Ok {[ "AA:BB:CC:DD:EE:FF" :=
            mk_entry "AA:BB:CC:DD:EE:FF" "Scale1" (-60) ["180d"] 0 None None ]}
  /\ size
       ({[ "AA:BB:CC:DD:EE:FF" :=
             mk_entry "AA:BB:CC:DD:EE:FF" "Scale1" (-60) ["180d"] 0 None None ]}
        : gmap string entry) <= 2.
Proof.
  assert (H : post_process ascii_decode
    (collect [adv (-80) [x03; x03; x0d; x18];
              adv (-60) [x07; x09; x53; x63; x61; x6c; x65; x31]] []) ∅
  = Ok {[ "AA:BB:CC:DD:EE:FF" :=
            mk_entry "AA:BB:CC:DD:EE:FF" "Scale1" (-60) ["180d"] 0 None None ]})
    by (vm_compute; reflexivity).
  split; [exact H |].
  exact (proj2 (proj2 (seen_keys_are_addresses ascii_decode _ _ H))).
Defined.

(** X7.  The RSSI of a record is the strongest RSSI among the
    advertisements of its address in the cycle: one of them has it and
    none has a higher one. *)
Theorem record_rssi_is_strongest (utf8_decode : list byte -> option string)
    (rs : list raw_result) (seen : gmap string entry) (mac : string) (e : entry)
    (Hrun : post_process utf8_decode rs ∅ = Ok seen)
    (He : seen !! mac = Some e) :
  (exists r, r ∈ rs /\ mac_of (r_addr r) = mac /\ r_rssi r = rssi e)
  /\ (forall r, r ∈ rs -> mac_of (r_addr r) = mac -> (r_rssi r <= rssi e)%Z).
Proof. exact (strongest_post_process utf8_decode rs seen Hrun mac e He). Qed.

Lemma record_rssi_is_strongest_witness :
  let rs := collect [adv (-80) []; adv (-60) []; adv (-70) []] [] in
  let e := mk_entry "AA:BB:CC:DD:EE:FF" EmptyString (-60) [] 0 None None in
  post_process ascii_decode rs ∅ = Ok {[ "AA:BB:CC:DD:EE:FF" := e ]}
  /\ forall r, r ∈ rs -> mac_of (r_addr r) = "AA:BB:CC:DD:EE:FF" ->
               (r_rssi r <= -60)%Z.
Proof.
  intros rs e.
  assert (H : post_process ascii_decode rs ∅ = Ok {[ "AA:BB:CC:DD:EE:FF" := e ]})
    by (vm_compute; reflexivity).
  split; [exact H |].
  exact (proj2 (record_rssi_is_strongest ascii_decode rs _
                  "AA:BB:CC:DD:EE:FF" e H eq_refl)).
Defined.

(** X8.  The [services] and [addr_type] of a record are those of the
    first advertisement of its address in the cycle; services carried by
    later advertisements of the same address are not added. *)
Theorem first_advertisement_fixes_services
    (utf8_decode : list byte -> option string)
    (rs1 rs2 : list raw_result) (r : raw_result) (f : ad_fields)
    (seen : gmap string entry)
    (Hrun : post_process utf8_decode (rs1 ++ r :: rs2)%list ∅ = Ok seen)
    (Hfirst : mac_of (r_addr r) ∉ macs rs1)
    (Hparse : parse_ad utf8_decode (r_adv r) = Ok f) :
  exists e,
    seen !! mac_of (r_addr r) = Some e
    /\ services e = f_services f
    /\ addr_type e = r_addr_type r.
Proof.
  rewrite post_process_app in Hrun.
  destruct (post_process utf8_decode rs1 ∅) as [s1| |] eqn:H1;
    simpl in Hrun; try discriminate.
  destruct (keyed_post_process utf8_decode rs1 s1 H1) as [Hk _].
  assert (Hnone : s1 !! mac_of (r_addr r) = None).
  { destruct (s1 !! mac_of (r_addr r)) eqn:Hs; [| reflexivity].
    exfalso. apply Hfirst, Hk. eauto. }
  unfold process_one in Hrun. rewrite Hparse in Hrun. simpl in Hrun.
  set (e0 := fresh (mac_of (r_addr r)) (r_addr_type r) (r_rssi r) f).
  assert (Hl : dedup s1 (mac_of (r_addr r)) (r_addr_type r) (r_rssi r) f
               !! mac_of (r_addr r) = Some e0).
  { rewrite dedup_lookup, Hnone.
    now destruct (decide (mac_of (r_addr r) = mac_of (r_addr r))). }
  destruct (post_process_keeps utf8_decode rs2 _ seen _ e0 Hrun Hl)
    as (e & He & _ & Hs & Ht & _).
  exists e. split; [exact He |].
  destruct (fresh_fields (mac_of (r_addr r)) (r_addr_type r) (r_rssi r) f)
    as (_ & _ & Ht0 & Hs0 & _).
  fold e0 in Ht0, Hs0. split; congruence.
Qed.

Lemma first_advertisement_fixes_services_witness :
  let r1 := mk_raw [xaa; xbb; xcc; xdd; xee; xff] 0 (-80) [x03; x03; x0d; x18] in
  let r2 := mk_raw [xaa; xbb; xcc; xdd; xee; xff] 1 (-60) [x03; x03; x0a; x18] in
  exists e,
    post_process ascii_decode [r1; r2] ∅ = Ok {[ "AA:BB:CC:DD:EE:FF" := e ]}
    /\ services e = ["180d"] /\ addr_type e = 0%Z.
Proof.
  intros r1 r2.
  assert (H : post_process ascii_decode ([] ++ r1 :: [r2])%list ∅
              = Ok {[ "AA:BB:CC:DD:EE:FF" :=
                        mk_entry "AA:BB:CC:DD:EE:FF" EmptyString (-60)
                          ["180d"] 0 None None ]})
    by (vm_compute; reflexivity).
  destruct (first_advertisement_fixes_services ascii_decode [] [r2] r1
              (mk_fields EmptyString ["180d"] None None) _ H)
    as (e & He & Hs & Ht).
  - unfold macs. simpl. apply not_elem_of_nil.
  - reflexivity.
  - exists e. split; [| split; [exact Hs | exact Ht]].
    change ([] ++ r1 :: [r2])%list with [r1; r2] in H. rewrite H. f_equal.
    change (mac_of (r_addr r1)) with "AA:BB:CC:DD:EE:FF" in He.
    rewrite lookup_singleton_eq in He. now injection He as <-.
Defined.

(** X9.  Once a record is in [seen], the rest of the cycle never removes
    it and never replaces what it has: a non-empty name stays, and
    non-empty manufacturer data stays together with its manufacturer
    id. *)
Theorem first_values_are_kept (utf8_decode : list byte -> option string)
    (rs : list raw_result) (seen0 seen : gmap string entry)
    (mac : string) (e : entry)
    (Hrun : post_process utf8_decode rs seen0 = Ok seen)
    (He : seen0 !! mac = Some e) :
  exists e',
    seen !! mac = Some e'
    /\ (name e <> EmptyString -> name e' = name e)
    /\ (forall d, manufacturer_data e = Some d -> d <> EmptyString ->
          manufacturer_id e' = manufacturer_id e
          /\ manufacturer_data e' = Some d).
Proof.
  destruct (post_process_keeps utf8_decode rs seen0 seen mac e Hrun He)
    as (e' & He' & _ & _ & _ & Hn & Hd).
  exists e'. split; [exact He' |]. split; [exact Hn |].
  intros d Hsome Hne. destruct Hd as [Hi Hm].
  - apply truthy_opt_spec. eauto.
  - split; congruence.
Qed.

Lemma first_values_are_kept_witness :
  let e := mk_entry "AA:BB:CC:DD:EE:FF" "Scale1" (-60) [] 0 (Some 1%N) (Some "beef") in
  let r := mk_raw [xaa; xbb; xcc; xdd; xee; xff] 0 (-40)
             [x04; x09; x46; x6f; x6f; x04; xff; x02; x00; xaa] in
  exists e',
    post_process ascii_decode [r] {[ "AA:BB:CC:DD:EE:FF" := e ]}
    = Ok {[ "AA:BB:CC:DD:EE:FF" := e' ]}
    /\ name e' = "Scale1" /\ manufacturer_data e' = Some "beef".
Proof.
  intros e r.
  assert (H : post_process ascii_decode [r] {[ "AA:BB:CC:DD:EE:FF" := e ]}
              = Ok {[ "AA:BB:CC:DD:EE:FF" :=
                        mk_entry "AA:BB:CC:DD:EE:FF" "Scale1" (-40) [] 0
                          (Some 1%N) (Some "beef") ]})
    by (vm_compute; reflexivity).
  destruct (first_values_are_kept ascii_decode [r] _ _ "AA:BB:CC:DD:EE:FF" e H
              (lookup_singleton_eq _ _))
    as (e' & He' & Hn & Hd).
  exists e'. rewrite lookup_singleton_eq in He'. injection He' as <-.
  split; [exact H |]. split; reflexivity.
Defined.

(** X10.  The results of a scan cycle hold at most one record per
    address, every record belongs to an address that advertised among the
    entries kept, and there are at most [_MAX_SCAN_ENTRIES] of them. *)
Theorem scan_results_one_per_address (utf8_decode : list byte -> option string)
    (events : list (Z * irq_data)) (hw hw' : radio) (rs : list entry)
    (Hscan : scan utf8_decode events hw = (Ok rs, hw')) :
  NoDup (map address rs)
  /\ (forall e, e ∈ rs -> address e ∈ macs (collect events []))
  /\ length rs <= _MAX_SCAN_ENTRIES.
Proof.
  unfold scan in Hscan.
  destruct (post_process utf8_decode (collect events []) ∅) as [seen| |] eqn:Hp;
    try discriminate.
  injection Hscan as <- _.
  destruct (keyed_post_process utf8_decode _ seen Hp) as [Hk Ha].
  split; [| split].
  - unfold results_of. apply NoDup_filter_map.
    rewrite values_addresses by exact Ha. apply NoDup_fst_map_to_list.
  - intros e [[mac He] _]%results_of_spec.
    rewrite (Ha _ _ He). apply Hk. eauto.
  - pose proof (results_of_length seen).
    pose proof (size_post_process utf8_decode _ ∅ seen Hp) as Hs.
    rewrite map_size_empty in Hs.
    pose proof (collect_length events). lia.
Qed.

Lemma scan_results_one_per_address_witness :
  scan ascii_decode
    [adv (-70) [x03; x03; x0d; x18];
     adv (-60) [x07; x09; x53; x63; x61; x6c; x65; x31]] off
  = (Ok [mk_entry "AA:BB:CC:DD:EE:FF" "Scale1" (-60) ["180d"] 0 None None],
     mk_radio false false)
  /\ NoDup (map address
              [mk_entry "AA:BB:CC:DD:EE:FF" "Scale1" (-60) ["180d"] 0 None None]).
Proof.
  assert (H : scan ascii_decode
    [adv (-70) [x03; x03; x0d; x18];
     adv (-60) [x07; x09; x53; x63; x61; x6c; x65; x31]] off
  = (Ok [mk_entry "AA:BB:CC:DD:EE:FF" "Scale1" (-60) ["180d"] 0 None None],
     mk_radio false false)) by (vm_compute; reflexivity).
  split; [exact H |].
  exact (proj1 (scan_results_one_per_address ascii_decode _ _ _ _ H)).
Defined.


Import Cmd CmdSample.

(* ===================================================================== *)
(** * Routing of commands                                                *)
(* ===================================================================== *)

Section RoutingFacts.

Local Open Scope list_scope.

Context {W E J : Type}.
Variable env : Env W E J.
Variables PREFIX DEVICE_ID : string.

Abbreviation topic' := (topic PREFIX DEVICE_ID).

Lemma topic_eqb (s c : string) : String.eqb (topic' s) (topic' c) = String.eqb s c.
Proof.
  destruct (String.eqb_spec s c) as [-> | Hne]; [apply String.eqb_refl |].
  apply String.eqb_neq. intros H. unfold topic in H.
  apply str_app_inv_head in H. now apply str_app_inv_head in H.
Qed.

Lemma topic_startswith (p s : string) :
  Py.startswith (topic' p) (topic' s) = String.prefix p s.
Proof.
  unfold Py.startswith, topic.
  now rewrite !prefix_app_cancel.
Qed.

Lemma topic_after_prefix (p r : string) :
  after_prefix (topic' p) (topic' (p +:+ r)) = r.
Proof.
  unfold after_prefix.
  replace (topic' (p +:+ r)) with (topic' p +:+ r)
    by (unfold topic; now rewrite !str_app_assoc).
  apply str_from_app.
Qed.

Lemma publish_error_ok (m : string) (s : state W J) :
  (publish_error env PREFIX DEVICE_ID m s).1 = inr tt.
Proof.
  unfold publish_error, try_except, publish, await, ret.
  now destruct (env_publish env _ _ (world s)) as [[e | []] w'].
Qed.

Lemma publish_error_state (m : string) (s : state W J) :
  let s' := (publish_error env PREFIX DEVICE_ID m s).2 in
  _busy s' = _busy s /\ _scan_paused s' = _scan_paused s
  /\ _char_subscribed s' = _char_subscribed s
  /\ trace s' = trace s ++ [Publish (topic' "error") (PStr m)].
Proof.
  unfold publish_error, try_except, publish, await, ret.
  now destruct (env_publish env _ _ (world s)) as [[e | []] w'].
Qed.

End RoutingFacts.

(** X12.  The dispatch of one message never raises: whatever the handler
    or the collaborators do, the call returns normally, so one failing
    command cannot end the command loop. *)
Theorem dispatch_never_raises {W E J : Type} (env : Env W E J)
    (PREFIX DEVICE_ID t : string) (msg : list byte) (st : state W J) :
  (dispatch env PREFIX DEVICE_ID t msg st).1 = inr tt.
Proof.
  unfold dispatch, try_except.
  match goal with
  | |- context [match ?m st with _ => _ end] => destruct (m st) as [[e | []] s']
  end.
  - apply publish_error_ok.
  - reflexivity.
Qed.

(** X13.  None of the topics the bridge itself publishes on is taken for
    a command: a message on [status], [error], [connected],
    [disconnected], [scan/results] or [notify/{uuid}] leaves the flags,
    the collaborators and the trace as they are. *)
Theorem own_topics_are_not_commands {W E J : Type} (env : Env W E J)
    (PREFIX DEVICE_ID suffix u : string) (msg : list byte) (st : state W J)
    (Hown : In suffix ["status"; "error"; "connected"; "disconnected";
                        "scan/results"; "notify/" +:+ u]) :
  dispatch env PREFIX DEVICE_ID (topic PREFIX DEVICE_ID suffix) msg st
  = (inr tt, st).
Proof.
  unfold dispatch, try_except.
  rewrite !topic_eqb, !topic_startswith.
  simpl in Hown.
  destruct Hown as [<- | [<- | [<- | [<- | [<- | [<- | []]]]]]]; reflexivity.
Qed.

Lemma own_topics_are_not_commands_witness :
  dispatch timeout_env "bridge" "esp32" "bridge/esp32/connected" [] idle
  = (inr tt, idle).
Proof.
  apply (own_topics_are_not_commands timeout_env "bridge" "esp32"
           "connected" EmptyString [] idle).
  simpl. auto.
Defined.

(** X14.  The UUID segment of a write or read topic reaches the bridge
    verbatim: a message on [write/{u}] is handled as [handle_write(u,
    msg)], and a message on [read/{u}], for a [u] without [/response], as
    [handle_read(u)]; a failure of the handler is published as one
    error. *)
Theorem uuid_segment_is_passed_on {W E J : Type} (env : Env W E J)
    (PREFIX DEVICE_ID u : string) (msg : list byte) (st : state W J)
    (Hresp : Py.contains "/response" u = false) :
  dispatch env PREFIX DEVICE_ID (topic PREFIX DEVICE_ID ("write/" +:+ u)) msg st
  = try_except (handle_write env u msg)
      (fun e => publish_error env PREFIX DEVICE_ID (env_str env e)) st
  /\ dispatch env PREFIX DEVICE_ID (topic PREFIX DEVICE_ID ("read/" +:+ u)) msg st
     = try_except (handle_read env PREFIX DEVICE_ID u)
         (fun e => publish_error env PREFIX DEVICE_ID (env_str env e)) st.
Proof.
  unfold dispatch. rewrite !topic_eqb, !topic_startswith, !topic_after_prefix.
  rewrite !prefix_app, Hresp.
  replace (String.prefix "write/" ("read/" +:+ u)) with false by reflexivity.
  split; reflexivity.
Qed.

Lemma uuid_segment_is_passed_on_witness :
  Py.contains "/response" "2a9d" = false
  /\ trace (dispatch timeout_env "bridge" "esp32" "bridge/esp32/write/2a9d"
              [x01] idle).2
     = [BridgeWrite "2a9d" [x01]].
Proof.
  assert (H : Py.contains "/response" "2a9d" = false) by reflexivity.
  split; [exact H |].
  change "bridge/esp32/write/2a9d" with (topic "bridge" "esp32" ("write/" +:+ "2a9d")).
  rewrite (proj1 (uuid_segment_is_passed_on timeout_env "bridge" "esp32" "2a9d"
                    [x01] idle H)).
  reflexivity.
Defined.

(* ===================================================================== *)
(** * The Connect sequence and the Disconnect command                    *)
(* ===================================================================== *)

Section SequenceFacts.

Local Open Scope list_scope.

Context {W E J : Type}.
Variable env : Env W E J.
Variables PREFIX DEVICE_ID : string.

Abbreviation M := (@Main.M W E J).

Lemma mbind_ok {A B} (m : M A) (k : A -> M B) s b s' :
  mbind m k s = (inr b, s') ->
  exists a s1, m s = (inr a, s1) /\ k a s1 = (inr b, s').
Proof.
  unfold mbind. destruct (m s) as [[e | a] s1]; [discriminate | eauto].
Qed.

Lemma await_ok {A} (c : call J) (op : W -> (E + A) * W) s a s' :
  await c op s = (inr a, s') ->
  trace s' = trace s ++ [c]
  /\ _busy s' = _busy s /\ _scan_paused s' = _scan_paused s
  /\ _char_subscribed s' = _char_subscribed s
  /\ op (world s) = (inr a, world s').
Proof.
  unfold await. destruct (op (world s)) as [r w'].
  intros [= -> <-]. simpl. auto.
Qed.

Lemma notify_uuids_cons c chars :
  notify_uuids (c :: chars)
  = if existsb (String.eqb "notify") (properties c)
    then uuid c :: notify_uuids chars else notify_uuids chars.
Proof.
  unfold notify_uuids. cbn [List.filter].
  now destruct (existsb (String.eqb "notify") (properties c)).
Qed.

Lemma start_notifies_ok chars s s' :
  start_notifies env chars s = (inr tt, s') ->
  trace s' = trace s ++ map BridgeStartNotify (notify_uuids chars)
  /\ _char_subscribed s' = _char_subscribed s.
Proof.
  revert s; induction chars as [|c chars IH]; intros s.
  - cbn [start_notifies]. intros [= <-]. now rewrite app_nil_r.
  - cbn [start_notifies]. intros (a & s1 & H1 & H2)%mbind_ok.
    destruct (IH _ H2) as [Ht Hc]. rewrite notify_uuids_cons.
    destruct (existsb (String.eqb "notify") (properties c)).
    + apply await_ok in H1 as (Ht1 & _ & _ & Hc1 & _).
      rewrite Ht, Ht1, Hc, Hc1. cbn [map]. now rewrite <- app_assoc.
    + injection H1 as _ <-. auto.
Qed.

(** A Connect sequence that runs to its end makes these calls, in this
    order. *)
Lemma connect_body_ok msg s s' :
  connect_body env PREFIX DEVICE_ID msg s = (inr tt, s') ->
  exists a t w1 chars w2,
    env_request env msg = inr (a, t)
    /\ env_disconnect env (world s) = (inr tt, w1)
    /\ env_connect env a t w1 = (inr chars, w2)
    /\ _char_subscribed s' = true
    /\ trace s'
       = trace s ++ connect_calls PREFIX DEVICE_ID (_char_subscribed s) a t chars
                      (env_dumps env chars).
Proof.
  unfold connect_body.
  intros ([a t] & s1 & H1 & H)%mbind_ok.
  injection H1 as H1 <-.
  apply mbind_ok in H as ([] & s2 & H2 & H).
  apply await_ok in H2 as (T2 & _ & _ & C2 & W2).
  apply mbind_ok in H as (chars & s3 & H3 & H).
  apply await_ok in H3 as (T3 & _ & _ & C3 & W3).
  apply mbind_ok in H as (sub & s4 & H4 & H).
  injection H4 as <- <-.
  apply mbind_ok in H as ([] & s5 & H5 & H).
  apply mbind_ok in H as ([] & s6 & H6 & H).
  apply start_notifies_ok in H6 as (T6 & C6).
  apply await_ok in H as (T7 & _ & _ & C7 & _).
  exists a, t, (world s2), chars, (world s3). split; [exact H1 |].
  split; [exact W2 |]. split; [exact W3 |].
  unfold connect_calls. simpl fst in *. simpl snd in *.
  rewrite C2 in C3. rewrite <- C3.
  destruct (_char_subscribed s3) eqn:Hsub; simpl negb in H5; cbv iota in H5.
  - injection H5 as <-. split; [congruence |].
    rewrite T7, T6, T3, T2. simpl. now rewrite <- !app_assoc.
  - apply mbind_ok in H5 as ([] & s51 & H51 & H5).
    apply mbind_ok in H5 as ([] & s52 & H52 & H5).
    apply await_ok in H51 as (T51 & _ & _ & C51 & _).
    apply await_ok in H52 as (T52 & _ & _ & C52 & _).
    injection H5 as <-. simpl in *. split; [congruence |].
    rewrite T7, T6. simpl. rewrite T52, T51, T3, T2.
    now rewrite <- !app_assoc.
Qed.

Lemma after_busy_wait_free (s : state W J) :
  _busy s = false ->
  after_busy_wait env s
  = mk_state false true (_char_subscribed s) (trace s) (world s).
Proof.
  intros Hb. unfold after_busy_wait, mbind, set_scan_paused. simpl.
  unfold mbind, get_busy. simpl. now rewrite Hb.
Qed.

End SequenceFacts.

(** X15.  A Disconnect command does not wait for the radio: whatever
    [_busy] is, it tears the session down at once, and when the bridge
    has done so it clears [_scan_paused] and [_char_subscribed] and
    publishes the disconnected event; the two flags are cleared even when
    that publish fails. *)
Theorem disconnect_command_resumes_scanning {W E J : Type} (env : Env W E J)
    (PREFIX DEVICE_ID : string) (msg : list byte) (st : state W J) (w' : W)
    (Hdown : env_disconnect env (world st) = (inr tt, w')) :
  let r := dispatch env PREFIX DEVICE_ID (topic PREFIX DEVICE_ID "disconnect")
             msg st in
  r.1 = inr tt
  /\ _scan_paused r.2 = false
  /\ _char_subscribed r.2 = false
  /\ exists tail,
       trace r.2
       = (trace st
            ++ BridgeDisconnect
               :: Publish (topic PREFIX DEVICE_ID "disconnected") (PStr EmptyString)
               :: tail)%list
       /\ (tail = []
           \/ exists m, tail = [Publish (topic PREFIX DEVICE_ID "error") (PStr m)]).
Proof.
  intros r. subst r. unfold dispatch.
  rewrite !topic_eqb. simpl String.eqb. cbv iota.
  unfold try_except, handle_disconnect, mbind, await, set_char_subscribed,
    set_scan_paused, publish, await.
  rewrite Hdown. cbn [world trace _busy _scan_paused _char_subscribed].
  destruct (env_publish env _ _ w') as [[e | []] w2];
    cbn [fst snd world trace _busy _scan_paused _char_subscribed].
  - pose proof (publish_error_ok env PREFIX DEVICE_ID (env_str env e)) as Hok.
    pose proof (publish_error_state env PREFIX DEVICE_ID (env_str env e)) as Hst.
    match goal with
    | |- context [publish_error env PREFIX DEVICE_ID _ ?s] =>
        specialize (Hok s); destruct (Hst s) as (Hb & Hp & Hc & Ht)
    end.
    simpl in Hb, Hp, Hc, Ht.
    repeat split; try assumption.
    eexists. split.
    + rewrite Ht. rewrite <- !app_assoc. simpl. reflexivity.
    + right. eauto.
  - repeat split. exists []. split; [| now left].
    now rewrite <- !app_assoc.
Qed.

Lemma disconnect_command_resumes_scanning_witness :
  env_disconnect stuck_env tt = (inr tt, tt)
  /\ _scan_paused
       (dispatch stuck_env "bridge" "esp32" "bridge/esp32/disconnect" []
          (mk_state true true true [] tt)).2 = false.
Proof.
  split; [reflexivity |].
  exact (proj1 (proj2 (disconnect_command_resumes_scanning stuck_env "bridge"
                         "esp32" [] (mk_state true true true [] tt) tt eq_refl))).
Defined.

(** X16.  A Connect command that finds the radio free and runs to its end
    has made these calls and no others, in this order: tear down the
    previous session, connect to the address of the request, subscribe to
    [write/#] and [read/#] only if no earlier Connect had done so, start
    the notify forwarding for those characteristics, of the ones
    [bridge.connect] returned, that list [notify] (not for those that
    only list [indicate]), publish the connected event with what
    [bridge.connect] returned.  It leaves [_busy] false, [_scan_paused]
    true and [_char_subscribed] true. *)
Theorem connect_success_trace {W E J : Type} (env : Env W E J)
    (PREFIX DEVICE_ID : string) (msg : list byte) (st : state W J)
    (Hfree : _busy st = false)
    (Hok : (handle_connect env PREFIX DEVICE_ID msg st).1 = inr tt) :
  let s' := (handle_connect env PREFIX DEVICE_ID msg st).2 in
  _busy s' = false /\ _scan_paused s' = true /\ _char_subscribed s' = true
  /\ exists address addr_type w1 chars w2,
       env_request env msg = inr (address, addr_type)
       /\ env_disconnect env (world st) = (inr tt, w1)
       /\ env_connect env address addr_type w1 = (inr chars, w2)
       /\ trace s'
          = (trace st
               ++ connect_calls PREFIX DEVICE_ID (_char_subscribed st)
                    address addr_type chars (env_dumps env chars))%list.
Proof.
  intros s'. subst s'. revert Hok. rewrite handle_connect_unfold. cbv zeta.
  rewrite (after_busy_wait_free env st Hfree).
  cbn [_busy]. cbv iota.
  unfold mbind, set_busy, try_finally, try_except, set_scan_paused, raise.
  cbv beta iota. cbn [_busy _scan_paused _char_subscribed trace world].
  match goal with
  | |- context [connect_body ?a ?b ?c ?d ?s] =>
      pose proof (keeps_connect_body a b c d s) as [_ Hk];
      pose proof (connect_body_ok a b c d s) as Hbody;
      destruct (connect_body a b c d s) as [[e | []] s2] eqn:Hcb
  end; cbn [fst snd _busy _scan_paused _char_subscribed trace world] in *.
  - discriminate.
  - intros _.
    destruct (Hbody s2 eq_refl)
      as (a & t & w1 & chars & w2 & Hreq & Hd & Hcon & Hc & Ht).
    split; [reflexivity |]. split; [exact Hk |]. split; [exact Hc |].
    exists a, t, w1, chars, w2.
    split; [exact Hreq |]. split; [exact Hd |]. split; [exact Hcon | exact Ht].
Qed.

Lemma connect_success_trace_witness :
  _busy idle = false
  /\ (handle_connect scale_env "bridge" "esp32" [] idle).1 = inr tt
  /\ trace (handle_connect scale_env "bridge" "esp32" [] idle).2
     = [BridgeDisconnect; BridgeConnect "AA:BB:CC:DD:EE:FF" "0";
        Subscribe "bridge/esp32/write/#"; Subscribe "bridge/esp32/read/#";
        BridgeStartNotify "00002a9d00001000800000805f9b34fb";
        Publish "bridge/esp32/connected"
          (PStr (env_dumps scale_env scale_chars))].
Proof.
  assert (H : (handle_connect scale_env "bridge" "esp32" [] idle).1 = inr tt)
    by (vm_compute; reflexivity).
  split; [reflexivity |]. split; [exact H |].
  destruct (connect_success_trace scale_env "bridge" "esp32" [] idle eq_refl H)
    as (_ & _ & _ & a & t & w1 & chars & w2 & Hreq & _ & Hcon & Ht).
  injection Hreq as <- <-. injection Hcon as <- _.
  exact Ht.
Defined.

Import Session SessionSample.

(* ===================================================================== *)
(** * The GATT session                                                   *)
(* ===================================================================== *)

Section SessionFacts.

Import Session.

Local Open Scope list_scope.

Context {A C S K T D E : Type}.
Variable io : Aioble A C S K T D E.

Abbreviation state := (bridge A C S K T D).

Lemma hexdigit_upper_not_colon (d : N) :
  Ascii.eqb (Py.hexdigit true d) ":" = false.
Proof.
  unfold Py.hexdigit.
  assert (Hlt : (d mod 16 < 16)%N) by (apply N.mod_lt; discriminate).
  rewrite <- (N2Nat.id (d mod 16)) in *.
  set (k := N.to_nat (d mod 16)) in *.
  assert (Hk : k < 16) by lia. clear Hlt.
  do 16 (destruct k as [|k]; [reflexivity |]). lia.
Qed.

Lemma split1_hex2 (n : N) (rest : string) :
  split1 ":" (Py.hex2 true n +:+ String ":" rest)
  = Py.hex2 true n :: split1 ":" rest
  /\ split1 ":" (Py.hex2 true n) = [Py.hex2 true n].
Proof.
  unfold Py.hex2. rewrite !str_app_cons, str_app_nil. cbn [split1].
  rewrite !hexdigit_upper_not_colon, Ascii.eqb_refl. auto.
Qed.

Lemma split1_mac_of (addr : list byte) :
  addr <> [] ->
  split1 ":" (mac_of addr) = map (fun b => Py.hex2 true (Byte.to_N b)) addr.
Proof.
  induction addr as [|a [|b r] IH]; intros Hne; [congruence | |].
  - apply split1_hex2. exact EmptyString.
  - rewrite mac_of_cons2. change (":" +:+ mac_of (b :: r)) with (String ":" (mac_of (b :: r))).
    rewrite (proj1 (split1_hex2 _ _)), IH by discriminate. reflexivity.
Qed.

Lemma byte_of_int_to_N (b : byte) :
  byte_of_int (Z.of_N (Byte.to_N b)) = Some b.
Proof.
  unfold byte_of_int. pose proof (Byte.to_N_bounded b).
  destruct (Z.leb_spec 0 (Z.of_N (Byte.to_N b))); [| lia].
  destruct (Z.ltb_spec (Z.of_N (Byte.to_N b)) 256); [| lia].
  simpl. rewrite N2Z.id. apply Byte.of_to_N.
Qed.

Lemma bbind_ok {X Y} (m : B (E := E) X) (k : X -> B Y) (s : state) y s' :
  bbind m k s = (inr y, s') ->
  exists x s1, m s = (inr x, s1) /\ k x s1 = (inr y, s').
Proof.
  unfold bbind. destruct (m s) as [[e | x] s1]; [discriminate | eauto].
Qed.

Lemma perform_ok {X} (c : call A C S K T) (op : D -> (E + X) * D) (s : state) x s' :
  perform c op s = (inr x, s') ->
  _conn s' = _conn s /\ _chars s' = _chars s
  /\ _notify_tasks s' = _notify_tasks s /\ calls s' = calls s ++ [c].
Proof.
  unfold perform. destruct (op (dev s)) as [[e | x0] d']; [discriminate |].
  intros [= _ <-]. simpl. auto.
Qed.

Lemma registered_step acc k :
  registered io acc -> registered io (register io acc k).
Proof.
  intros [H1 H2]. unfold register. split; simpl.
  - intros ci [Hin | ->%list_elem_of_singleton]%elem_of_app.
    + destruct (decide (_norm_uuid (char_uuid io k) = Main.uuid ci)) as [Heq | Hne].
      * exists k. rewrite <- Heq, lookup_insert_eq. auto.
      * destruct (H1 ci Hin) as (k0 & Hk0 & Hn0). exists k0.
        rewrite lookup_insert_ne by exact Hne. auto.
    + exists k. simpl. rewrite lookup_insert_eq. auto.
  - intros u k0. destruct (decide (_norm_uuid (char_uuid io k) = u)) as [<- | Hne].
    + intros _. eexists. rewrite elem_of_app, list_elem_of_singleton.
      split; [right; reflexivity | reflexivity].
    + rewrite lookup_insert_ne by exact Hne. intros Hl.
      destruct (H2 _ _ Hl) as (ci & Hin & Hu). exists ci.
      rewrite elem_of_app. auto.
Qed.

Lemma registered_fold chars acc :
  registered io acc -> registered io (fold_left (register io) chars acc).
Proof.
  revert acc; induction chars as [|k chars IH]; intros acc H; [exact H |].
  simpl. apply IH. now apply registered_step.
Qed.

Lemma discover_ok services info (s : state) info' s' :
  discover io services info s = (inr info', s') ->
  registered io (_chars s, info) ->
  registered io (_chars s', info')
  /\ _conn s' = _conn s /\ _notify_tasks s' = _notify_tasks s.
Proof.
  revert info s; induction services as [|sv services IH]; intros info s.
  - simpl. intros [= <- <-]. auto.
  - cbn [discover]. intros (chars & s1 & H1 & H)%bbind_ok Hreg.
    apply perform_ok in H1 as (Hc1 & Hm1 & Ht1 & _).
    apply bbind_ok in H as (info1 & s2 & H2 & H).
    injection H2 as <- <-.
    apply IH in H.
    + simpl in H. destruct H as (Hr & Hc & Ht). split; [exact Hr |].
      split; congruence.
    + simpl. rewrite Hm1.
      pose proof (registered_fold chars (_chars s, info) Hreg) as Hf.
      now destruct (fold_left (register io) chars (_chars s, info)).
Qed.

Lemma cancel_all_ok tasks (s : state) :
  exists d',
    cancel_all io tasks s
    = (inr tt, mk_bridge (_conn s) (_chars s) (_notify_tasks s)
                 (calls s ++ map Cancel tasks) d').
Proof.
  revert s; induction tasks as [|t tasks IH]; intros s.
  - exists (dev s). simpl. rewrite app_nil_r. now destruct s.
  - cbn [cancel_all]. unfold bbind at 1.
    match goal with |- context [cancel_all io tasks ?s1] =>
      destruct (IH s1) as [d' ->] end.
    exists d'. simpl. now rewrite <- app_assoc.
Qed.

End SessionFacts.

(** X17.  The address string that [scan] reports is read back by
    [connect] as the bytes it came from: splitting at the colons and
    reading every piece in base 16 inverts the formatting with [%02X],
    for every non-empty address. *)
Theorem address_round_trip {A C S K T D E : Type} (io : Aioble A C S K T D E)
    (addr : list byte)
    (Hint : forall b : byte,
        int16 io (Py.hex2 true (Byte.to_N b)) = Some (Z.of_N (Byte.to_N b)))
    (Hne : addr <> []) :
  addr_bytes_of io (mac_of addr) = Some addr.
Proof.
  unfold addr_bytes_of. rewrite split1_mac_of by exact Hne.
  clear Hne. induction addr as [|a addr IH]; [reflexivity |].
  simpl. rewrite Hint, byte_of_int_to_N. simpl.
  simpl in IH. rewrite IH. reflexivity.
Qed.

Lemma hex_value_hex2 (b : byte) :
  hex_value (Py.hex2 true (Byte.to_N b)) = Some (Z.of_N (Byte.to_N b)).
Proof. destruct b; reflexivity. Qed.

Lemma address_round_trip_witness :
  addr_bytes_of scale (mac_of [xaa; xbb; xcc; xdd; xee; xff])
  = Some [xaa; xbb; xcc; xdd; xee; xff].
Proof.
  apply (address_round_trip scale [xaa; xbb; xcc; xdd; xee; xff]).
  - exact hex_value_hex2.
  - discriminate.
Defined.

Section SessionCalls.

Local Open Scope list_scope.

Context {A C S K T D E : Type}.
Variable io : Aioble A C S K T D E.

Abbreviation state := (bridge A C S K T D).
Abbreviation discovers := (@Session.discovers A C S K T D E _).

Lemma discovers_ret {X} (x : X) : discovers (ret x).
Proof. intros s. simpl. split; [reflexivity |]. exists []. now rewrite app_nil_r. Qed.

Lemma discovers_bind {X Y} (m : B X) (k : X -> B Y) :
  discovers m -> (forall x, discovers (k x)) -> discovers (bbind m k).
Proof.
  intros Hm Hk s. unfold bbind. destruct (Hm s) as (Ht & new & Hc & Hf).
  destruct (m s) as [[e | x] s1]; simpl in *.
  - split; [exact Ht |]. eauto.
  - destruct (Hk x s1) as (Ht2 & new2 & Hc2 & Hf2). split; [congruence |].
    exists (new ++ new2). rewrite Hc2, Hc, <- app_assoc. split; [reflexivity |].
    now rewrite forallb_app, Hf, Hf2.
Qed.

Lemma discovers_perform {X} (c : call A C S K T) (op : D -> (E + X) * D) :
  discovery_call c = true -> discovers (perform c op).
Proof.
  intros Hc s. unfold perform. destruct (op (dev s)) as [r d']. simpl.
  split; [reflexivity |]. exists [c]. simpl. now rewrite Hc.
Qed.

Lemma discovers_discover services info : discovers (discover io services info).
Proof.
  revert info; induction services as [|sv services IH]; intros info.
  - apply discovers_ret.
  - cbn [discover]. apply discovers_bind; [now apply discovers_perform |].
    intros chars. apply discovers_bind; [| intros x; apply IH].
    intros s. simpl. split; [reflexivity |]. exists []. now rewrite app_nil_r.
Qed.

Lemma disconnect_eq (s : state) :
  exists d2,
    disconnect io s
    = (inr tt,
       mk_bridge None ∅ []
         (calls s ++ map Cancel (_notify_tasks s)
            ++ match _conn s with Some c => [ConnDisconnect c] | None => [] end
            ++ [Active false]) d2).
Proof.
  unfold disconnect, bbind. cbv beta iota.
  destruct (cancel_all_ok io (_notify_tasks s) s) as [d' ->].
  cbv beta iota. cbn [_conn _chars _notify_tasks calls dev].
  destruct (_conn s) as [c |].
  - unfold attempt, set_conn, set_chars.
    cbn [_conn _chars _notify_tasks calls dev].
    destruct (conn_disconnect io c d') as [r1 d1].
    cbn [_conn _chars _notify_tasks calls dev].
    destruct (ble_active io false d1) as [r2 d2].
    exists d2. rewrite <- ?app_assoc. reflexivity.
  - unfold attempt, ret, set_chars.
    cbn [_conn _chars _notify_tasks calls dev].
    destruct (ble_active io false d') as [r2 d2].
    exists d2. rewrite <- ?app_assoc. reflexivity.
Qed.

End SessionCalls.

(** X18.  [disconnect] never raises, whatever the connection and the
    radio do.  It cancels every notify task, in order, closes the
    connection if there is one, and switches the radio off; afterwards the
    bridge has no connection, no characteristics and no tasks. *)
Theorem disconnect_resets_session {A C S K T D E : Type}
    (io : Aioble A C S K T D E) (s : bridge A C S K T D) :
  let r := disconnect io s in
  r.1 = inr tt
  /\ _conn r.2 = None /\ _chars r.2 = ∅ /\ _notify_tasks r.2 = []
  /\ calls r.2
     = (calls s ++ map Cancel (_notify_tasks s)
          ++ match _conn s with Some c => [ConnDisconnect c] | None => [] end
          ++ [Active false])%list.
Proof.
  intros r. subst r. destruct (disconnect_eq io s) as [d2 ->].
  repeat split.
Qed.

(** X19.  After [disconnect], reading a characteristic returns empty
    bytes, and writing one or starting notifications on one does nothing,
    for every UUID, without a call on the device; and a second
    [disconnect] only switches the radio off again. *)
Theorem disconnected_bridge_is_inert {A C S K T D E : Type}
    (io : Aioble A C S K T D E) (s : bridge A C S K T D)
    (uuid_str : string) (data : list byte) :
  let s' := (disconnect io s).2 in
  read io uuid_str s' = (inr [], s')
  /\ write io uuid_str data s' = (inr tt, s')
  /\ start_notify io uuid_str s' = (inr tt, s')
  /\ calls (disconnect io s').2 = (calls s' ++ [Active false])%list.
Proof.
  intros s'. subst s'.
  destruct (disconnect_eq io s) as [d2 Hs]. rewrite Hs. cbn [snd].
  unfold read, write, start_notify. cbn [_chars]. rewrite lookup_empty.
  repeat split.
  destruct (disconnect_eq io (mk_bridge None ∅ []
              (calls s ++ map Cancel (_notify_tasks s)
                 ++ match _conn s with Some c => [ConnDisconnect c] | None => [] end
                 ++ [Active false]) d2)) as [d3 Hs'].
  rewrite Hs'. reflexivity.
Qed.

Import Discovery DiscoverySample.

Section DiscoveryFacts.

Local Open Scope list_scope.

Context {A C S K T D E : Type}.
Variable io : Aioble A C S K T D E.

Abbreviation state := (bridge A C S K T D).

(** The inner loop of [connect] inserts the characteristics one after the
    other and appends their descriptions. *)
Lemma register_fold (chars : list K) (m : gmap string K)
    (info : list Main.char_info) :
  fold_left (register io) chars (m, info)
  = (fold_left (fun acc k => <[_norm_uuid (char_uuid io k) := k]> acc) chars m,
     info ++ map (describe io) chars).
Proof.
  revert m info; induction chars as [|k chars IH]; intros m info.
  - simpl. now rewrite app_nil_r.
  - cbn [fold_left map]. unfold register at 2. cbn [fst snd].
    rewrite IH. now rewrite <- app_assoc.
Qed.

(** After the insertions, a key holds the last characteristic inserted
    under it. *)
Lemma insert_fold_lookup (chars : list K) (m : gmap string K) (u : string) :
  fold_left (fun acc k => <[_norm_uuid (char_uuid io k) := k]> acc) chars m !! u
  = match last_with io u chars with
    | Some k => Some k
    | None => m !! u
    end.
Proof.
  revert m; induction chars as [|k chars IH]; intros m; [reflexivity |].
  cbn [fold_left]. rewrite IH. unfold last_with. cbn [List.filter].
  destruct (String.eqb_spec (_norm_uuid (char_uuid io k)) u) as [Heq | Hne].
  - destruct (List.filter _ chars) as [|k1 l1] eqn:Hf.
    + simpl. now rewrite <- Heq, lookup_insert_eq.
    + rewrite last_cons_cons.
      destruct (last (k1 :: l1)) eqn:Hl; [reflexivity |].
      now apply last_None in Hl.
  - destruct (last (List.filter _ chars)); [reflexivity |].
    now rewrite lookup_insert_ne.
Qed.

Lemma perform_ok_dev {X} (c : call A C S K T) (op : D -> (E + X) * D)
    (s : state) x s' :
  perform c op s = (inr x, s') -> op (dev s) = (inr x, dev s').
Proof.
  unfold perform. destruct (op (dev s)) as [[e | x0] d']; [discriminate |].
  now intros [= -> <-].
Qed.

(** The outer loop of [connect]: the registry and the report are built
    from the same characteristics, in the same order. *)
Lemma discover_fold services info (s : state) info' s' :
  discover io services info s = (inr info', s') ->
  exists chars,
    discovered io services (dev s) = Some (chars, dev s')
    /\ info' = info ++ map (describe io) chars
    /\ _chars s'
       = fold_left (fun acc k => <[_norm_uuid (char_uuid io k) := k]> acc)
           chars (_chars s).
Proof.
  revert info s; induction services as [|sv services IH]; intros info s.
  - simpl. intros [= <- <-]. exists []. simpl. now rewrite app_nil_r.
  - cbn [discover discovered]. intros (chars & s1 & H1 & H)%bbind_ok.
    pose proof (perform_ok_dev _ _ _ _ _ H1) as Hd.
    apply perform_ok in H1 as (_ & Hm1 & _ & _).
    apply bbind_ok in H as (info1 & s2 & H2 & H).
    injection H2 as <- <-.
    apply IH in H as (more & Hdisc & Hinfo & Hmap).
    cbn [dev _chars] in Hdisc, Hmap.
    rewrite register_fold in Hinfo, Hmap. cbn [fst snd] in Hinfo, Hmap.
    rewrite Hd, Hdisc. exists (chars ++ more).
    split; [reflexivity |]. split.
    + now rewrite Hinfo, map_app, app_assoc.
    + now rewrite Hmap, Hm1, fold_left_app.
Qed.

End DiscoveryFacts.

(** X20.  When [connect] returns, its report describes every
    characteristic the services handed out, in order, and the bridge has
    registered under each UUID string the last of them that has this
    normalised UUID: of two characteristics with one UUID both are
    reported, and only the later one is kept.  So every reported UUID
    leads to some characteristic with that UUID, on which [read] then
    reads; the bridge holds the connection just made, holds no
    characteristic that is not reported, and its notify tasks are those
    it had before. *)
Theorem connect_registers_reported {A C S K T D E : Type}
    (io : Aioble A C S K T D E) (address : string) (addr_type : Z)
    (s s' : bridge A C S K T D) (info : list Main.char_info)
    (Hok : connect io address addr_type s = (inr info, s')) :
  (exists addr d1 conn d2 services d3 chars,
     addr_bytes_of io address = Some addr
     /\ ble_active io true (dev s) = (inr tt, d1)
     /\ device_connect io
          (if (addr_type =? 1)%Z then ADDR_RANDOM io else ADDR_PUBLIC io)
          addr d1 = (inr conn, d2)
     /\ conn_services io conn d2 = (inr services, d3)
     /\ discovered io services d3 = Some (chars, dev s')
     /\ _conn s' = Some conn
     /\ info = map (describe io) chars
     /\ forall u, _chars s' !! u = last_with io u chars)
  /\ (forall ci, ci ∈ info ->
     exists k,
       _chars s' !! Main.uuid ci = Some k
       /\ _norm_uuid (char_uuid io k) = Main.uuid ci
       /\ calls (read io (Main.uuid ci) s').2 = (calls s' ++ [CharRead k])%list)
  /\ (forall u k, _chars s' !! u = Some k ->
        exists ci, ci ∈ info /\ Main.uuid ci = u)
  /\ is_Some (_conn s')
  /\ _notify_tasks s' = _notify_tasks s.
Proof.
  unfold connect in Hok.
  apply bbind_ok in Hok as ([] & s1 & H1 & Hok).
  pose proof (perform_ok_dev _ _ _ _ _ H1) as D1.
  apply perform_ok in H1 as (_ & _ & T1 & _).
  apply bbind_ok in Hok as (addr_bytes & s2 & H2 & Hok).
  assert (s2 = s1 /\ addr_bytes_of io address = Some addr_bytes) as [-> Haddr].
  { destruct (addr_bytes_of io address); [| discriminate H2].
    injection H2 as -> ->. auto. }
  clear H2.
  apply bbind_ok in Hok as (conn & s3 & H3 & Hok).
  pose proof (perform_ok_dev _ _ _ _ _ H3) as D3.
  apply perform_ok in H3 as (_ & _ & T3 & _).
  apply bbind_ok in Hok as ([] & s4 & H4 & Hok). injection H4 as <-.
  apply bbind_ok in Hok as ([] & s5 & H5 & Hok). injection H5 as <-.
  apply bbind_ok in Hok as (services & s6 & H6 & Hok).
  pose proof (perform_ok_dev _ _ _ _ _ H6) as D6.
  apply perform_ok in H6 as (C6 & M6 & T6 & _).
  simpl in C6, M6, T6, D6.
  pose proof (discover_fold io _ _ _ _ _ Hok) as (chars & Hdisc & Hinfo & Hmap).
  apply discover_ok in Hok.
  - destruct Hok as ([Hr1 Hr2] & Hc & Ht). simpl in Hr1, Hr2.
    split; [| split; [| split; [exact Hr2 | split]]].
    + exists addr_bytes, (dev s1), conn, (dev s3), services, (dev s6), chars.
      split; [exact Haddr |]. split; [exact D1 |]. split; [exact D3 |].
      split; [exact D6 |]. split; [exact Hdisc |].
      split; [now rewrite Hc, C6 |]. split; [exact Hinfo |].
      intros u. rewrite Hmap, M6, insert_fold_lookup, lookup_empty.
      now destruct (last_with io u chars).
    + intros ci Hin. destruct (Hr1 ci Hin) as (k & Hk & Hn).
      exists k. split; [exact Hk |]. split; [exact Hn |].
      unfold read. rewrite Hk. unfold perform.
      now destruct (char_read io k (dev s')).
    + rewrite Hc, C6. eauto.
    + congruence.
  - rewrite M6. split; simpl.
    + intros ci Hin. now apply elem_of_nil in Hin.
    + intros u k. rewrite lookup_empty. discriminate.
Qed.

Lemma connect_registers_reported_witness :
  exists s',
    connect twin "AA:BB:CC:DD:EE:FF" 0 fresh_bridge
    = (inr [Main.mk_char "00002a9d00001000800000805f9b34fb" ["notify"; "indicate"];
            Main.mk_char "00002a9e00001000800000805f9b34fb" ["read"];
            Main.mk_char "00002a9d00001000800000805f9b34fb" ["notify"; "indicate"];
            Main.mk_char "00002a9e00001000800000805f9b34fb" ["read"]], s')
    /\ _chars s' !! "00002a9d00001000800000805f9b34fb" = Some 3.
Proof.
  eexists. split.
  - vm_compute. reflexivity.
  - match goal with
    | |- _chars ?s1 !! _ = _ =>
        destruct (proj1 (connect_registers_reported twin "AA:BB:CC:DD:EE:FF" 0
                           fresh_bridge s1 _ ltac:(vm_compute; reflexivity)))
          as (addr & d1 & conn & d2 & services & d3 & chars
              & _ & _ & _ & Hsv & Hdisc & _ & _ & Hlast)
    end.
    rewrite Hlast. injection Hsv as <- <-.
    injection Hdisc as <-. reflexivity.
Defined.

(** X21.  [connect] never tears anything down: whether it returns or
    raises, it switches the radio on, then makes only connection and
    discovery calls, and it leaves the notify tasks as they are; the
    radio is not switched off again when the attempt fails.  With an
    address that does not read as bytes it raises [ValueError] without
    any call on aioble. *)
Theorem connect_only_discovers {A C S K T D E : Type}
    (io : Aioble A C S K T D E) (address : string) (addr_type : Z)
    (s : bridge A C S K T D) :
  let r := connect io address addr_type s in
  _notify_tasks r.2 = _notify_tasks s
  /\ (exists new,
        calls r.2 = (calls s ++ Active true :: new)%list
        /\ forallb discovery_call new = true)
  /\ (addr_bytes_of io address = None ->
      forall d', ble_active io true (dev s) = (inr tt, d') ->
      r = (inl ValueError,
           mk_bridge (_conn s) (_chars s) (_notify_tasks s)
             (calls s ++ [Active true]) d')).
Proof.
  intros r. subst r. unfold connect.
  match goal with
  | |- context [bbind (perform (Active true) _) (fun _ => ?k)] => set (rest := k)
  end.
  assert (Hrest : discovers rest).
  { subst rest. apply discovers_bind.
    { intros s0. simpl. split; [reflexivity |]. exists []. now rewrite app_nil_r. }
    intros addr_bytes. apply discovers_bind; [now apply discovers_perform |].
    intros conn. apply discovers_bind.
    { intros s0. simpl. split; [reflexivity |]. exists []. now rewrite app_nil_r. }
    intros _. apply discovers_bind.
    { intros s0. simpl. split; [reflexivity |]. exists []. now rewrite app_nil_r. }
    intros _. apply discovers_bind; [now apply discovers_perform |].
    intros services. apply discovers_discover. }
  unfold bbind, perform.
  destruct (ble_active io true (dev s)) as [[e | []] d1] eqn:Hact;
    cbn [fst snd _notify_tasks calls].
  { split; [reflexivity |]. split; [| intros _ d' [=]].
    exists []. split; reflexivity. }
  match goal with |- context [rest ?s0] => set (s1 := s0) end.
  destruct (Hrest s1) as (Ht & new & Hc & Hf).
  split; [exact Ht |]. split.
  - exists new. rewrite Hc. subst s1. simpl. now rewrite <- app_assoc.
  - intros Hnone d' [= <-]. subst rest s1. unfold bbind at 1.
    rewrite Hnone. reflexivity.
Qed.

Lemma connect_only_discovers_witness :
  addr_bytes_of out_of_reach "AA:BB:CC:DD:EE" = Some [xaa; xbb; xcc; xdd; xee]
  /\ addr_bytes_of out_of_reach "scale" = None
  /\ connect out_of_reach "scale" 0 fresh_bridge
     = (inl ValueError, mk_bridge None ∅ [] [Active true] tt).
Proof.
  split; [reflexivity |].
  assert (H : addr_bytes_of out_of_reach "scale" = None) by reflexivity.
  split; [exact H |].
  exact (proj2 (proj2 (connect_only_discovers out_of_reach "scale" 0 fresh_bridge))
           H tt eq_refl).
Defined.

Import Loop LoopSample.

(* ===================================================================== *)
(** * The scan loop                                                      *)
(* ===================================================================== *)

Section LoopFacts.

Local Open Scope list_scope.

Context {W E R : Type}.
Variable env : Env W E R.
Variables PREFIX DEVICE_ID : string.

Abbreviation topic' := (topic PREFIX DEVICE_ID).

(** The wait for the transport returns after at most [n] sleeps; it
    sleeps only while the transport is down, and when it stops early the
    transport is up and [_subs_ready] is set. *)
Lemma recover_spec n (s : state W) :
  exists k,
    k <= n
    /\ (recover env n s).1 = inr tt
    /\ trace (recover env n s).2 = trace s ++ repeat (Sleep 1000) k
    /\ _busy (recover env n s).2 = _busy s
    /\ _last_scan_time (recover env n s).2 = _last_scan_time s
    /\ (k < n -> _subs_ready (recover env n s).2 = true
                 /\ isconnected env (world (recover env n s).2) = true)
    /\ (isconnected env (world s) = true ->
        k = 0 /\ world (recover env n s).2 = world s).
Proof.
  revert s; induction n as [|n IH]; intros s.
  - exists 0. simpl. rewrite app_nil_r. repeat split; auto; lia.
  - cbn [recover].
    destruct (isconnected env (world s)) eqn:Hc; simpl andb.
    + exists 0. destruct (_subs_ready s) eqn:Hr; simpl; rewrite app_nil_r;
        repeat split; auto; lia.
    + unfold lbind, sleep_ms, await. cbv beta iota.
      match goal with |- context [recover env n ?s0] => set (s1 := s0) end.
      destruct (IH s1) as (k & Hk & H1 & H2 & H3 & H4 & H5 & H6).
      exists (S k). split; [lia |]. split; [exact H1 |].
      split; [| split; [exact H3 | split; [exact H4 | split]]].
      * rewrite H2. subst s1. simpl. now rewrite <- app_assoc.
      * intros Hlt. apply H5. lia.
      * discriminate.
Qed.

Lemma publish_error_spec m (s : state W) :
  (publish_error env PREFIX DEVICE_ID m s).1 = inr tt
  /\ trace (publish_error env PREFIX DEVICE_ID m s).2
     = trace s ++ [Publish (topic' "error") (Main.PStr m) false 0]
  /\ _busy (publish_error env PREFIX DEVICE_ID m s).2 = _busy s
  /\ (undisturbed env ->
      _subs_ready (publish_error env PREFIX DEVICE_ID m s).2 = _subs_ready s).
Proof.
  unfold publish_error, try_except, await, ret.
  destruct (publish env _ _ _ _ (world s)) as [[e | []] w'] eqn:Hp; simpl;
    repeat split; auto; intros Hu; now rewrite (Hu w').
Qed.

(** The scan cycle, with its [try] body run. *)
Lemma scan_cycle_unfold (s : state W) :
  scan_cycle env PREFIX DEVICE_ID s
  = let s0 := mk_state true false (_last_scan_time s) (trace s) (world s) in
    let r :=
      match await env Scan (bridge_scan env) s0 with
      | (inr results, s1) =>
          match
            await env
              (Publish (topic' "scan/results") (Main.PStr (dumps env results))
                 false 0)
              (publish env (topic' "scan/results")
                 (Main.PStr (dumps env results)) false 0)
              (recover env 30 s1).2
          with
          | (inr x, s3) => (inr x, s3)
          | (inl e, s3) =>
              publish_error env PREFIX DEVICE_ID ("Scan failed: " +:+ str env e) s3
          end
      | (inl e, s1) =>
          publish_error env PREFIX DEVICE_ID ("Scan failed: " +:+ str env e) s1
      end in
    (r.1, mk_state false (_subs_ready r.2) (ticks_ms env (world r.2))
            (trace r.2) (world r.2)).
Proof.
  unfold scan_cycle, lbind, try_finally, try_except, set_busy, set_subs_ready,
    set_last_scan_time. cbv beta iota zeta.
  cbn [_busy _subs_ready _last_scan_time trace world].
  destruct (await env Scan (bridge_scan env) _) as [[e | results] s1].
  - pose proof (publish_error_spec ("Scan failed: " +:+ str env e) s1) as [Hok _].
    destruct (publish_error env PREFIX DEVICE_ID _ s1) as [[e1 | []] s2];
      [discriminate Hok | reflexivity].
  - destruct (recover_spec 30 s1) as (k & _ & Hr & _).
    destruct (recover env 30 s1) as [[e1 | []] s2]; [discriminate Hr |].
    cbn [snd].
    destruct (await env _ _ s2) as [[e | []] s3]; [| reflexivity].
    pose proof (publish_error_spec ("Scan failed: " +:+ str env e) s3) as [Hok _].
    destruct (publish_error env PREFIX DEVICE_ID _ s3) as [[e1 | []] s4];
      [discriminate Hok | reflexivity].
Qed.

(** The wait for the transport sleeps until the transport is up, and at
    most [n] times. *)
Lemma recover_world n (s : state W) :
  exists k,
    k <= n
    /\ trace (recover env n s).2 = trace s ++ repeat (Sleep 1000) k
    /\ world (recover env n s).2 = Nat.iter k (sleep env 1000) (world s)
    /\ (forall j, j < k ->
          isconnected env (Nat.iter j (sleep env 1000) (world s)) = false)
    /\ (k < n -> isconnected env (Nat.iter k (sleep env 1000) (world s)) = true).
Proof.
  revert s; induction n as [|n IH]; intros s.
  - exists 0. simpl. rewrite app_nil_r. repeat split; auto; lia.
  - cbn [recover].
    destruct (isconnected env (world s)) eqn:Hc; simpl andb.
    + exists 0. destruct (_subs_ready s) eqn:Hr; simpl; rewrite app_nil_r;
        repeat split; auto; lia.
    + unfold lbind, sleep_ms, await. cbv beta iota.
      match goal with |- context [recover env n ?s0] => set (s1 := s0) end.
      destruct (IH s1) as (k & Hk & H2 & H3 & H4 & H5).
      exists (S k). split; [lia |]. split; [| split; [| split]].
      * rewrite H2. subst s1. simpl. now rewrite <- app_assoc.
      * rewrite H3. subst s1. cbn [world]. now rewrite Nat.iter_succ_r.
      * intros [|j] Hj; [exact Hc |].
        rewrite Nat.iter_succ_r. apply (H4 j). lia.
      * intros Hlt. rewrite Nat.iter_succ_r. apply H5. lia.
Qed.

(** An awaited call whose outcome is known. *)
Lemma await_eq {X : Type} (c : call) (op : W -> (E + X) * W) (s : state W)
    (r : E + X) (w' : W) :
  op (world s) = (r, w') ->
  await env c op s
  = (r, mk_state (_busy s)
         (match others env w' with Some b => b | None => _subs_ready s end)
         (_last_scan_time s) (trace s ++ [c]) w').
Proof. intros H. unfold await. now rewrite H. Qed.

End LoopFacts.

(** X22.  A scan cycle never raises and always gives the radio back:
    whether the scan or a publish fails, the cycle returns normally with
    [_busy] false and [_last_scan_time] set to the time at its end. *)
Theorem scan_cycle_always_ends {W E R : Type} (env : Env W E R)
    (PREFIX DEVICE_ID : string) (s : state W) :
  let r := scan_cycle env PREFIX DEVICE_ID s in
  r.1 = inr tt
  /\ _busy r.2 = false
  /\ _last_scan_time r.2 = ticks_ms env (world r.2).
Proof.
  intros r. subst r. rewrite scan_cycle_unfold. cbv zeta. cbn [fst snd _busy
    _last_scan_time world]. split; [| split; reflexivity].
  destruct (await env Scan (bridge_scan env) _) as [[e | results] s1].
  - apply publish_error_spec.
  - destruct (await env _ _ (recover env 30 s1).2) as [[e | []] s3];
      [apply publish_error_spec | reflexivity].
Qed.

(** X23.  When [bridge.scan()] raises, the cycle publishes one error,
    [Scan failed: ...], and no results.  It has cleared [_subs_ready]
    before the scan and does not set it again: unless another task does
    (on_connect, after a reconnect), the next turn of the loop only
    sleeps, and no further scan is started. *)
Theorem failed_scan_leaves_not_ready {W E R : Type} (env : Env W E R)
    (PREFIX DEVICE_ID : string) (s : state W) (e : E) (w1 : W)
    (scan_paused : bool)
    (Hscan : bridge_scan env (world s) = (inl e, w1))
    (Hquiet : undisturbed env) :
  let r := scan_cycle env PREFIX DEVICE_ID s in
  trace r.2
  = (trace s
       ++ [Scan;
           Publish (topic PREFIX DEVICE_ID "error")
             (Main.PStr ("Scan failed: " +:+ str env e)) false 0])%list
  /\ _subs_ready r.2 = false
  /\ let r' := loop_step env PREFIX DEVICE_ID scan_paused r.2 in
     trace r'.2 = (trace r.2 ++ [Sleep 1000])%list
     /\ _subs_ready r'.2 = false.
Proof.
  intros r.
  assert (Hr : trace r.2
               = (trace s
                    ++ [Scan;
                        Publish (topic PREFIX DEVICE_ID "error")
                          (Main.PStr ("Scan failed: " +:+ str env e)) false 0])%list
               /\ _subs_ready r.2 = false).
  { subst r. rewrite scan_cycle_unfold. cbv zeta.
    rewrite (await_eq env Scan (bridge_scan env)
               (mk_state true false (_last_scan_time s) (trace s) (world s))
               (inl e) w1 Hscan).
    cbn [fst snd _busy _subs_ready _last_scan_time trace world].
    match goal with
    | |- context [publish_error env PREFIX DEVICE_ID ?m ?s1] =>
        destruct (publish_error_spec env PREFIX DEVICE_ID m s1) as (_ & Ht & _ & Hs)
    end.
    rewrite Ht, (Hs Hquiet). cbn [trace _subs_ready]. rewrite (Hquiet w1).
    split; [now rewrite <- app_assoc | reflexivity]. }
  destruct Hr as [Ht Hs]. split; [exact Ht |]. split; [exact Hs |].
  intros r'. subst r'. unfold loop_step. rewrite Hs, andb_false_r.
  cbn [negb]. unfold sleep_ms, await. cbn [fst snd trace _subs_ready].
  rewrite Hquiet. auto.
Qed.

Lemma failed_scan_leaves_not_ready_witness :
  bridge_scan failing_scan tt = (inl "index out of range", tt)
  /\ undisturbed failing_scan
  /\ _subs_ready (scan_cycle failing_scan "bridge" "esp32" ready).2 = false.
Proof.
  assert (Hq : undisturbed failing_scan) by (intros w; reflexivity).
  split; [reflexivity |]. split; [exact Hq |].
  exact (proj1 (proj2 (failed_scan_leaves_not_ready failing_scan "bridge" "esp32"
                         ready "index out of range" tt false eq_refl Hq))).
Defined.

(** X24.  When [bridge.scan()] returns, the cycle sleeps one second at
    a time until the transport is up, thirty times at most, and then
    publishes the results on [scan/results] whatever they are, an empty
    list included; with the transport up right after the scan the results
    go out at once.  If that publish fails, one error is published after
    it, with the text of the failure; if it succeeds, nothing more is
    published. *)
Theorem scan_results_are_published {W E R : Type} (env : Env W E R)
    (PREFIX DEVICE_ID : string) (s : state W) (results : R) (w1 : W)
    (Hscan : bridge_scan env (world s) = (inr results, w1)) :
  let r := scan_cycle env PREFIX DEVICE_ID s in
  exists sleeps,
    let w2 := Nat.iter sleeps (sleep env 1000) w1 in
    sleeps <= 30
    /\ (forall j, j < sleeps ->
          isconnected env (Nat.iter j (sleep env 1000) w1) = false)
    /\ (sleeps < 30 -> isconnected env w2 = true)
    /\ (isconnected env w1 = true -> sleeps = 0)
    /\ trace r.2
       = (trace s
            ++ Scan
               :: after_scan env PREFIX DEVICE_ID sleeps results
                    match
                      (publish env (topic PREFIX DEVICE_ID "scan/results")
                         (Main.PStr (dumps env results)) false 0 w2).1
                    with
                    | inl e => Some e
                    | inr _ => None
                    end)%list.
Proof.
  intros r. subst r. rewrite scan_cycle_unfold. cbv zeta.
  rewrite (await_eq env Scan (bridge_scan env)
             (mk_state true false (_last_scan_time s) (trace s) (world s))
             (inr results) w1 Hscan).
  cbn [_busy _subs_ready _last_scan_time trace world].
  match goal with |- context [recover env 30 ?s0] => set (s1 := s0) end.
  destruct (recover_world env 30 s1) as (k & Hk & Ht & Hw & Hdown & Hup).
  subst s1. cbn [trace world] in Ht, Hw, Hdown, Hup.
  exists k. split; [exact Hk |]. split; [exact Hdown |]. split; [exact Hup |].
  split.
  { intros Hcon. destruct k as [|k]; [reflexivity |].
    specialize (Hdown 0 ltac:(lia)). simpl in Hdown. congruence. }
  unfold await. rewrite Hw.
  destruct (publish env _ _ _ _ (Nat.iter k (sleep env 1000) w1)) as [[e | []] w3];
    cbn [fst snd trace].
  - match goal with
    | |- context [publish_error env PREFIX DEVICE_ID ?m ?s3] =>
        destruct (publish_error_spec env PREFIX DEVICE_ID m s3) as (_ & Hp & _)
    end.
    rewrite Hp. cbn [trace]. rewrite Ht. unfold after_scan.
    rewrite <- !app_assoc. reflexivity.
  - rewrite Ht. unfold after_scan. rewrite <- !app_assoc. reflexivity.
Qed.

Lemma scan_results_are_published_witness :
  bridge_scan lossy 0 = (inr ["AA:BB:CC:DD:EE:FF"], 0)
  /\ trace (scan_cycle lossy "bridge" "esp32" (ready_at 0)).2
     = [Scan; Sleep 1000; Sleep 1000;
        Publish "bridge/esp32/scan/results" (Main.PStr "AA:BB:CC:DD:EE:FF") false 0;
        Publish "bridge/esp32/error" (Main.PStr "Scan failed: ECONNRESET") false 0].
Proof.
  split; [reflexivity |].
  destruct (scan_results_are_published lossy "bridge" "esp32" (ready_at 0)
              ["AA:BB:CC:DD:EE:FF"] 0 eq_refl)
    as (k & _ & Hdown & Hup & _ & Ht).
  destruct k as [|[|[|k]]].
  - specialize (Hup ltac:(lia)). discriminate Hup.
  - specialize (Hup ltac:(lia)). discriminate Hup.
  - exact Ht.
  - specialize (Hdown 2 ltac:(lia)). discriminate Hdown.
Defined.

(** X25.  A turn of the scan loop starts a scan only when the transport
    is connected and ready, neither [_scan_paused] nor [_busy] is set,
    and at least 5000 ticks have passed since the last cycle; otherwise
    it sleeps once, for a second or half a second, and calls nothing
    else. *)
Theorem scan_starts_only_when_free {W E R : Type} (env : Env W E R)
    (PREFIX DEVICE_ID : string) (scan_paused : bool) (s : state W) :
  let r := loop_step env PREFIX DEVICE_ID scan_paused s in
  (may_scan env scan_paused s = true -> r = scan_cycle env PREFIX DEVICE_ID s)
  /\ (may_scan env scan_paused s = false ->
      r.1 = inr tt
      /\ (trace r.2 = (trace s ++ [Sleep 1000])%list
          \/ trace r.2 = (trace s ++ [Sleep 500])%list))
  /\ (scan_paused || _busy s = true -> ~ In Scan (drop (length (trace s)) (trace r.2))).
Proof.
  intros r. subst r. unfold loop_step, may_scan.
  destruct (isconnected env (world s) && _subs_ready s); cbn [negb andb].
  2:{ split; [discriminate |]. unfold sleep_ms, await. cbn [fst snd _busy trace].
      split; [auto |]. intros _. rewrite drop_app_length. simpl. intuition discriminate. }
  destruct (scan_paused || _busy s); cbn [negb andb].
  { split; [discriminate |]. unfold sleep_ms, await. cbn [fst snd _busy trace].
    split; [auto |]. intros _. rewrite drop_app_length. simpl. intuition discriminate. }
  destruct (ticks_diff env _ _ <? 5000)%Z; cbn [negb].
  - split; [discriminate |]. unfold sleep_ms, await. cbn [fst snd _busy trace].
    split; [auto | discriminate].
  - split; [reflexivity |]. split; discriminate.
Qed.

Lemma scan_starts_only_when_free_witness :
  may_scan quiet true ready = false
  /\ trace (loop_step quiet "bridge" "esp32" true ready).2 = [Sleep 1000].
Proof.
  assert (H : may_scan quiet true ready = false) by reflexivity.
  split; [exact H |].
  destruct (proj1 (proj2 (scan_starts_only_when_free quiet "bridge" "esp32" true ready)) H)
    as (_ & [Ht | Ht]); [exact Ht |].
  exfalso. revert Ht. vm_compute. discriminate.
Defined.


